(** * Bedrock manifold pipeline: a shallow embedding of
      [pipeline_scripts/bedrock_models.py] and its verified properties.

    The Python class [Pipeline] is embedded function by function.  Python
    values that travel through the chat messages and the request payload are
    values of [pyval]; exceptions are values of [exn]; every method that talks
    to a collaborator (boto3 clients, [requests], [base64], [json], [print],
    the host's [pop_system_message]) runs in the monad [M], which threads the
    trace of collaborator calls and propagates raised exceptions. *)

From stdpp Require Import gmap strings list fin_maps pretty.
From Stdlib Require Import Ascii Floats.PrimFloat.

Open Scope string_scope.
Open Scope Z_scope.
Open Scope list_scope.

Set Warnings "-register-all,-inexact-float".

(** ** Python values *)

Inductive pyval : Type :=
| PNone
| PBool (b : bool)
| PInt (z : Z)
| PFloat (f : float)
| PStr (s : string)
| PBytes (b : list Byte.byte)
| PList (l : list pyval)
| PDict (d : gmap string pyval).

(** A Python [dict] with string keys, as in the messages, the options map
    [body] and the keyword arguments of [converse]. *)
Abbreviation dict := (gmap string pyval).

Definition py_type_name (v : pyval) : string :=
  match v with
  | PNone => "NoneType"
  | PBool _ => "bool"
  | PInt _ => "int"
  | PFloat _ => "float"
  | PStr _ => "str"
  | PBytes _ => "bytes"
  | PList _ => "list"
  | PDict _ => "dict"
  end.

(** Truth value of an object, as tested by [if x] and [x if c else y]. *)
Definition truthy (v : pyval) : bool :=
  match v with
  | PNone => false
  | PBool b => b
  | PInt z => negb (z =? 0)
  | PFloat f => negb (PrimFloat.eqb f 0%float)
  | PStr s => negb (String.eqb s "")
  | PBytes b => negb (Nat.eqb (List.length b) 0)
  | PList l => negb (Nat.eqb (List.length l) 0)
  | PDict d => negb (bool_decide (d = ∅))
  end.

(** [v == "lit"] for a string literal: only a [str] equals a [str]. *)
Definition py_eq_str (v : pyval) (lit : string) : bool :=
  match v with
  | PStr s => String.eqb s lit
  | _ => false
  end.

(** [isinstance(v, list)] *)
Definition isinstance_list (v : pyval) : bool :=
  match v with
  | PList _ => true
  | _ => false
  end.

(** ** Exceptions and results *)

(** The exception classes that the code can raise or receive.  All of them
    derive from [Exception], so every [except Exception] clause catches them.
    [External cls msg] stands for an exception raised inside a collaborator
    (botocore's [ClientError], a [requests] exception, [binascii.Error]). *)
Inductive exn : Type :=
| KeyError (key_repr : string)
| IndexError (msg : string)
| TypeError (msg : string)
| AttributeError (msg : string)
| ValueError (msg : string)
| NameError (msg : string)
| UnboundLocalError (msg : string)
| External (cls msg : string).

(** [str(e)], as interpolated by [f"... {e}"]: the message, and for a
    [KeyError] the [repr] of the missing key. *)
Definition str_exn (e : exn) : string :=
  match e with
  | KeyError r => r
  | IndexError m | TypeError m | AttributeError m | ValueError m
  | NameError m | UnboundLocalError m => m
  | External _ m => m
  end.

Inductive result (A : Type) : Type :=
| Ok (a : A)
| Raise (e : exn).
Arguments Ok {A} a.
Arguments Raise {A} e.

Definition is_ok {A} (r : result A) : bool :=
  match r with Ok _ => true | Raise _ => false end.

#[global] Instance result_ret : MRet result := fun A a => Ok a.
#[global] Instance result_bind : MBind result := fun A B f r =>
  match r with
  | Ok a => f a
  | Raise e => Raise e
  end.

(** [repr] of a string key (keys with quotes or escapes do not occur here). *)
Definition repr_str (k : string) : string := "'" +:+ k +:+ "'".

(** A name that is bound nowhere: evaluating it raises [NameError]. *)
Definition unbound_name {A} (n : string) : result A :=
  Raise (NameError ("name '" +:+ n +:+ "' is not defined")).

(** [v[k]] for a string key [k]. *)
Definition py_getitem (v : pyval) (k : string) : result pyval :=
  match v with
  | PDict d =>
      match d !! k with
      | Some x => Ok x
      | None => Raise (KeyError (repr_str k))
      end
  | PStr _ => Raise (TypeError "string indices must be integers, not 'str'")
  | PBytes _ => Raise (TypeError "byte indices must be integers or slices, not str")
  | PList _ => Raise (TypeError "list indices must be integers or slices, not str")
  | _ => Raise (TypeError ("'" +:+ py_type_name v +:+ "' object is not subscriptable"))
  end.

(** [d[k]] when [d] is known to be a [dict]. *)
Definition dict_getitem (d : dict) (k : string) : result pyval :=
  match d !! k with
  | Some x => Ok x
  | None => Raise (KeyError (repr_str k))
  end.

(** [d.get(k, dflt)] when [d] is known to be a [dict]. *)
Definition dict_get (d : dict) (k : string) (dflt : pyval) : pyval :=
  default dflt (d !! k).

(** [v.get(k, dflt)]: only a [dict] has the method. *)
Definition py_get (v : pyval) (k : string) (dflt : pyval) : result pyval :=
  match v with
  | PDict d => Ok (dict_get d k dflt)
  | _ => Raise (AttributeError
                  ("'" +:+ py_type_name v +:+ "' object has no attribute 'get'"))
  end.

(** [v[0]] *)
Definition py_index0 (v : pyval) : result pyval :=
  match v with
  | PList (x :: _) => Ok x
  | PList [] => Raise (IndexError "list index out of range")
  | PStr (String c _) => Ok (PStr (String c ""))
  | PStr "" => Raise (IndexError "string index out of range")
  | PBytes (b :: _) => Ok (PInt (Z.of_N (Byte.to_N b)))
  | PBytes [] => Raise (IndexError "index out of range")
  | PDict d => Raise (KeyError "0")
  | _ => Raise (TypeError ("'" +:+ py_type_name v +:+ "' object is not subscriptable"))
  end.

(** ** String methods *)

(** [s.startswith(p)] *)
Fixpoint startswith (s p : string) : bool :=
  match p with
  | "" => true
  | String c p' =>
      match s with
      | "" => false
      | String d s' => Ascii.eqb c d && startswith s' p'
      end
  end.

(** [s.endswith(p)] *)
Definition endswith (s p : string) : bool :=
  startswith (String.rev s) (String.rev p).

(** [c in s] for a single character [c]. *)
Fixpoint str_contains (c : Ascii.ascii) (s : string) : bool :=
  match s with
  | "" => false
  | String d s' => Ascii.eqb c d || str_contains c s'
  end.

(** [s.split(c)] for a single-character separator: [split_go c s cur] holds
    in [cur] the piece being read, reversed. *)
Fixpoint split_go (c : Ascii.ascii) (s : string) (cur : string) : list string :=
  match s with
  | "" => [String.rev cur]
  | String d s' =>
      if Ascii.eqb c d then String.rev cur :: split_go c s' ""
      else split_go c s' (String d cur)
  end.

Definition split (c : Ascii.ascii) (s : string) : list string := split_go c s "".

(** [l[1]] on a list of strings. *)
Definition list_index1 (l : list string) : result string :=
  match l !! 1%nat with
  | Some x => Ok x
  | None => Raise (IndexError "list index out of range")
  end.

(** The receiver of a [str] method called with [str] arguments
    ([startswith], [endswith], [split]): a [str] has the method; [bytes] has
    it too but rejects a [str] argument; other objects do not have it. *)
Definition str_receiver (v : pyval) (method : string) : result string :=
  match v with
  | PStr s => Ok s
  | PBytes _ =>
      Raise (TypeError
               (method +:+ " first arg must be bytes or a tuple of bytes, not str"))
  | _ => Raise (AttributeError
                  ("'" +:+ py_type_name v +:+ "' object has no attribute '"
                   +:+ method +:+ "'"))
  end.

(** ** Collaborators *)

(** The four pre-built boto3 clients of [__init__]. *)
Inductive BedrockClient : Type := east_bedrock | west_bedrock.
Inductive RuntimeClient : Type := east_bedrock_runtime | west_bedrock_runtime.

(** One element of [response["modelSummaries"]].  A key that the provider
    omits is [None]; [.get] then yields its default and [[...]] raises
    [KeyError]. *)
Record Lifecycle : Type := { status : option string }.
Record ModelSummary : Type := {
  modelId : option string;
  modelName : option string;
  modelLifecycle : option Lifecycle }.
Record ListModelsResponse : Type := {
  modelSummaries : option (list ModelSummary) }.

(** One element of [response.get("profiles", [])]. *)
Record Profile : Type := {
  profile_status : option string;
  profile_modelId : option string;
  profile_modelName : option string;
  profile_region : option string }.
Record ListProfilesResponse : Type := {
  profiles : option (list Profile) }.

(** The iterable under [streaming_response["stream"]]: the chunks it
    delivers, and the exception it raises after them when the transport
    breaks before the end. *)
Record EventStream : Type := {
  chunks : list dict;
  broken : option exn }.
Record StreamingResponse : Type := {
  stream : option EventStream }.

(** Everything the module reaches outside itself.  The answers of the
    collaborators are fixed for the duration of one run. *)
Record World : Type := {
  module_name : string;                                     (* __name__ *)
  list_foundation_models : BedrockClient → result ListModelsResponse;
  list_inference_profiles : BedrockClient → result ListProfilesResponse;
  pop_system_message : list pyval → result (pyval * list pyval);
  json_dumps : list pyval → result string;
  b64decode : string → result (list Byte.byte);
  requests_get : string → result (list Byte.byte);  (* requests.get(url).content *)
  converse : RuntimeClient → dict → result dict;
  converse_stream : RuntimeClient → dict → result StreamingResponse }.

(** The observable actions, in the order in which they happen. *)
Inductive Event : Type :=
| EvPrint (line : string)
| EvLogInfo (line : string)
| EvListFoundationModels (c : BedrockClient)
| EvListInferenceProfiles (c : BedrockClient)
| EvB64Decode (s : string)
| EvRequestsGet (url : string)
| EvConverse (c : RuntimeClient) (kwargs : dict)
| EvConverseStream (c : RuntimeClient) (kwargs : dict).

(** ** The monad of methods: a trace of events and a possible exception *)

Definition M (A : Type) : Type := list Event → result A * list Event.

#[global] Instance M_ret : MRet M := fun A a tr => (Ok a, tr).
#[global] Instance M_bind : MBind M := fun A B f m tr =>
  match m tr with
  | (Ok a, tr') => f a tr'
  | (Raise e, tr') => (Raise e, tr')
  end.

Definition lift {A} (r : result A) : M A := fun tr => (r, tr).
Definition raise {A} (e : exn) : M A := lift (Raise e).
Definition emit (ev : Event) : M unit := fun tr => (Ok tt, tr ++ [ev]).

(** [try: body  except Exception as e: handler(e)] *)
Definition try_except {A} (body : M A) (handler : exn → M A) : M A := fun tr =>
  match body tr with
  | (Ok a, tr') => (Ok a, tr')
  | (Raise e, tr') => handler e tr'
  end.

(** A call to a collaborator: recorded, then answered. *)
Definition call {A} (ev : Event) (answer : result A) : M A :=
  emit ev ;; lift answer.

(** Running a method from the empty trace. *)
Definition run {A} (m : M A) : result A * list Event := m [].
Definition value_of {A} (m : M A) : result A := fst (run m).
Definition trace_of {A} (m : M A) : list Event := snd (run m).

(** [r[key]] on a provider record whose field may be missing. *)
Definition field {A} (key : string) (o : option A) : result A :=
  match o with
  | Some x => Ok x
  | None => Raise (KeyError (repr_str key))
  end.

(** ** The catalog *)

(** An entry of [self.pipelines]: a dict with the keys ["id"], ["name"],
    ["region"] and, except in the two failure sentinels, ["description"]. *)
Record ModelEntry : Type := {
  m_id : string;
  m_name : string;
  m_region : string;
  m_description : option string }.

#[global] Instance ModelEntry_eq_dec : EqDecision ModelEntry.
Proof. solve_decision. Defined.

(** The attributes of the [Pipeline] object other than the four clients. *)
Record Pipeline : Type := {
  type : string;
  name : string;
  pipelines : list ModelEntry }.

(** [model.get("modelLifecycle", {}).get("status") == 'ACTIVE'] *)
Definition lifecycle_active (model : ModelSummary) : bool :=
  match modelLifecycle model with
  | Some lc => bool_decide (status lc = Some "ACTIVE")
  | None => false
  end.

(** [get_model_region]: the first entry with the id decides. *)
Fixpoint get_model_region_in (ps : list ModelEntry) (model_id : string) : string :=
  match ps with
  | [] => "us-east-1"
  | model :: rest =>
      if String.eqb (m_id model) model_id then m_region model
      else get_model_region_in rest model_id
  end.

Definition get_model_region (self : Pipeline) (model_id : string) : string :=
  get_model_region_in (pipelines self) model_id.

Definition get_runtime_client (region : string) : RuntimeClient :=
  if String.eqb region "us-east-1" then east_bedrock_runtime
  else west_bedrock_runtime.

Definition east_sentinel : ModelEntry :=
  {| m_id := "error"; m_name := "Error fetching east models";
     m_region := "us-east-1"; m_description := None |}.

Definition west_sentinel : ModelEntry :=
  {| m_id := "error"; m_name := "Error fetching west models";
     m_region := "us-west-2"; m_description := None |}.

(** The list comprehension of [get_east_models]. *)
Fixpoint east_comprehension (summaries : list ModelSummary)
  : result (list ModelEntry) :=
  match summaries with
  | [] => Ok []
  | model :: rest =>
      if lifecycle_active model then
        i ← field "modelId" (modelId model);
        n ← field "modelName" (modelName model);
        d ← field "modelName" (modelName model);
        models ← east_comprehension rest;
        Ok ({| m_id := i; m_name := n; m_region := "us-east-1";
               m_description := Some (d +:+ " - us-east-1") |} :: models)
      else east_comprehension rest
  end.

(** The list comprehension of [get_west_models]. *)
Fixpoint west_comprehension (east_ids : gset string)
    (summaries : list ModelSummary) : result (list ModelEntry) :=
  match summaries with
  | [] => Ok []
  | model :: rest =>
      if lifecycle_active model then
        k ← field "modelId" (modelId model);
        if bool_decide (k ∉ east_ids) then
          i ← field "modelId" (modelId model);
          n ← field "modelName" (modelName model);
          d ← field "modelName" (modelName model);
          models ← west_comprehension east_ids rest;
          Ok ({| m_id := i; m_name := n; m_region := "us-west-2";
                 m_description := Some (d +:+ " - us-west-2") |} :: models)
        else west_comprehension east_ids rest
      else west_comprehension east_ids rest
  end.

(** The list comprehension of [get_cross_region_profiles].  Its description
    reads [model['modelName']], and no name [model] is bound in that scope
    (the loop variable is [profile]). *)
Fixpoint cross_comprehension (east_ids : gset string)
    (ps : list Profile) : result (list ModelEntry) :=
  match ps with
  | [] => Ok []
  | profile :: rest =>
      if bool_decide (profile_status profile = Some "ACTIVE") then
        k ← field "modelId" (profile_modelId profile);
        if bool_decide (k ∉ east_ids) then
          i ← field "modelId" (profile_modelId profile);
          n ← field "modelName" (profile_modelName profile);
          let r := default "us-east-1" (profile_region profile) in
          d ← unbound_name "model";
          models ← cross_comprehension east_ids rest;
          Ok ({| m_id := i; m_name := n; m_region := r;
                 m_description := Some (d +:+ " - us-east-1 (cross-region)") |}
                :: models)
        else cross_comprehension east_ids rest
      else cross_comprehension east_ids rest
  end.

Section Catalog.
Context (w : World).

Definition get_east_models : M (list ModelEntry) :=
  try_except
    (response ← call (EvListFoundationModels east_bedrock)
                     (list_foundation_models w east_bedrock);
     summaries ← lift (field "modelSummaries" (modelSummaries response));
     models ← lift (east_comprehension summaries);
     mret models)
    (λ e,
      emit (EvPrint ("Error fetching east models: " +:+ str_exn e)) ;;
      mret [east_sentinel]).

Definition get_cross_region_profiles (east_ids : gset string)
  : M (list ModelEntry) :=
  try_except
    (response ← call (EvListInferenceProfiles east_bedrock)
                     (list_inference_profiles w east_bedrock);
     profiles ← lift (cross_comprehension east_ids
                        (default [] (profiles response)));
     mret profiles)
    (λ e,
      emit (EvPrint ("Error fetching cross-region profiles: " +:+ str_exn e)) ;;
      mret []).

Definition get_west_models (east_ids : gset string) : M (list ModelEntry) :=
  try_except
    (response ← call (EvListFoundationModels west_bedrock)
                     (list_foundation_models w west_bedrock);
     summaries ← lift (field "modelSummaries" (modelSummaries response));
     models ← lift (west_comprehension east_ids summaries);
     mret models)
    (λ e,
      emit (EvPrint ("Error fetching west models: " +:+ str_exn e)) ;;
      mret [west_sentinel]).

Definition get_models : M (list ModelEntry) :=
  east_models ← get_east_models;
  let east_ids : gset string := list_to_set (m_id <$> east_models) in
  cross_profiles ← get_cross_region_profiles east_ids;
  west_models ← get_west_models east_ids;
  mret (east_models ++ cross_profiles ++ west_models).

(** [__init__] *)
Definition init : M Pipeline :=
  ps ← get_models;
  mret {| type := "manifold"; name := "Bedrock: "; pipelines := ps |}.

(** [on_valves_updated] *)
Definition on_valves_updated (self : Pipeline) : M Pipeline :=
  emit (EvPrint ("on_valves_updated:" +:+ module_name w)) ;;
  ps ← get_models;
  mret {| type := type self; name := name self; pipelines := ps |}.

End Catalog.

(** ** Dispatch *)

(** The object bound to [img_stream] in [process_image]: a [BytesIO] on the
    inline route, the [bytes] of [Response.content] on the remote route. *)
Inductive ImgStream : Type :=
| BytesIO (data : list Byte.byte)
| RawBytes (data : list Byte.byte).

(** [img_stream.read()]: [bytes] has no such method. *)
Definition read (img_stream : ImgStream) : result (list Byte.byte) :=
  match img_stream with
  | BytesIO data => Ok data
  | RawBytes _ => Raise (AttributeError "'bytes' object has no attribute 'read'")
  end.

(** A generator object made by calling [stream_response]: the arguments of
    the suspended frame.  Nothing of the body has run yet. *)
Record Generator : Type := {
  gen_model_id : string;
  gen_payload : dict;
  gen_region : string }.

(** What [pipe] hands to the host. *)
Inductive PipeResult : Type :=
| Returned (v : pyval)
| ReturnedGenerator (g : Generator).

Definition image_limit_message : string :=
  "Maximum of 20 images per API call exceeded".

Definition default_system_prompt : string :=
  "you are an intelligent ai assistant".

(** The [for chunk in ...] loop of [stream_response]: the values yielded,
    and how the loop ends. *)
Fixpoint stream_loop (cs : list dict) (broken : option exn)
  : list pyval * result unit :=
  match cs with
  | [] =>
      match broken with
      | None => ([], Ok tt)
      | Some e => ([], Raise e)
      end
  | chunk :: rest =>
      if bool_decide (is_Some (chunk !! "contentBlockDelta")) then
        match (cbd ← dict_getitem chunk "contentBlockDelta";
               delta ← py_getitem cbd "delta";
               py_getitem delta "text") with
        | Ok text =>
            let '(ys, r) := stream_loop rest broken in (text :: ys, r)
        | Raise e => ([], Raise e)
        end
      else stream_loop rest broken
  end.

Section Dispatch.
Context (w : World).

Definition process_image (image : pyval) : M pyval :=
  url ← lift (py_getitem image "url");
  s ← lift (str_receiver url "startswith");
  img_stream ←
    (if startswith s "data:image" then
       base64_string ←
         (if str_contains ","%char s
          then b ← lift (list_index1 (split ","%char s)); mret (Some b)
          else mret None);
       b ← match base64_string with
           | Some b => mret b
           | None =>
               raise (UnboundLocalError
                 "cannot access local variable 'base64_string' where it is not associated with a value")
           end;
       image_data ← call (EvB64Decode b) (b64decode w b);
       mret (BytesIO image_data)
     else
       content ← call (EvRequestsGet s) (requests_get w s);
       mret (RawBytes content));
  let format := if endswith s ".png" then "png" else "jpeg" in
  data ← lift (read img_stream);
  mret (PDict {[ "image" :=
          PDict {[ "format" := PStr format;
                   "source" := PDict {[ "bytes" := PBytes data ]} ]} ]}).

(** The inner loop of [pipe], over the items of one message. *)
Fixpoint pipe_content_loop (items : list pyval)
    (processed_content : list pyval) (image_count : Z)
  : M (list pyval * Z) :=
  match items with
  | [] => mret (processed_content, image_count)
  | item :: rest =>
      ty ← lift (py_getitem item "type");
      if py_eq_str ty "text" then
        text ← lift (py_getitem item "text");
        pipe_content_loop rest
          (processed_content ++ [PDict {[ "text" := text ]}]) image_count
      else if py_eq_str ty "image_url" then
        if 20 <=? image_count then
          raise (ValueError image_limit_message)
        else
          image ← lift (py_getitem item "image_url");
          processed_image ← process_image image;
          pipe_content_loop rest
            (processed_content ++ [processed_image]) (image_count + 1)
      else pipe_content_loop rest processed_content image_count
  end.

(** The outer loop of [pipe], over the messages. *)
Fixpoint pipe_messages_loop (messages : list pyval)
    (processed_messages : list pyval) (image_count : Z)
  : M (list pyval) :=
  match messages with
  | [] => mret processed_messages
  | message :: rest =>
      content ← lift (py_get message "content" PNone);
      '(processed_content, image_count) ←
        match content with
        | PList items => pipe_content_loop items [] image_count
        | _ =>
            c ← lift (py_get message "content" (PStr ""));
            mret ([PDict {[ "text" := c ]}], image_count)
        end;
      role ← lift (py_getitem message "role");
      pipe_messages_loop rest
        (processed_messages ++
           [PDict {[ "role" := role; "content" := PList processed_content ]}])
        image_count
  end.

(** Lines 121-137 of [pipe]: [processed_messages] after the loop. *)
Definition normalize (messages : list pyval) : M (list pyval) :=
  pipe_messages_loop messages [] 0.

(** Lines 139-145 of [pipe]. *)
Definition build_payload (model_id : string) (processed_messages : list pyval)
    (system_message : pyval) (body : dict) : dict :=
  {[ "modelId" := PStr model_id;
     "messages" := PList processed_messages;
     "system" :=
       PList [PDict {[ "text" :=
         if truthy system_message then system_message
         else PStr default_system_prompt ]}];
     "inferenceConfig" :=
       PDict {[ "temperature" := dict_get body "temperature" (PFloat 0.5) ]};
     "additionalModelRequestFields" :=
       PDict {[ "top_k" := dict_get body "top_k" (PInt 200);
                "top_p" := dict_get body "top_p" (PFloat 0.9) ]} ]}.

(** Calling the generator function only builds the generator object. *)
Definition stream_response (model_id : string) (payload : dict)
    (region : string) : Generator :=
  {| gen_model_id := model_id; gen_payload := payload; gen_region := region |}.

(** The body of [stream_response], run when the host iterates over the
    generator: the deltas yielded, and how the iteration ends. *)
Definition drain (g : Generator)
  : list Event → (list pyval * result unit) * list Event := λ tr,
  let client := get_runtime_client (gen_region g) in
  let payload := gen_payload g in
  let payload :=
    if bool_decide (is_Some (payload !! "system"))
    then delete "system" payload else payload in
  let payload :=
    if bool_decide (is_Some (payload !! "additionalModelRequestFields"))
    then delete "additionalModelRequestFields" payload else payload in
  match call (EvConverseStream client payload)
             (converse_stream w client payload) tr with
  | (Raise e, tr') => (([], Raise e), tr')
  | (Ok streaming_response, tr') =>
      match field "stream" (stream streaming_response) with
      | Raise e => (([], Raise e), tr')
      | Ok es => (stream_loop (chunks es) (broken es), tr')
      end
  end.

Definition get_completion (model_id : string) (payload : dict)
    (region : string) : M pyval :=
  let client := get_runtime_client region in
  response ← call (EvConverse client payload) (converse w client payload);
  lift (output ← dict_getitem response "output";
        message ← py_getitem output "message";
        content ← py_getitem message "content";
        first ← py_index0 content;
        py_getitem first "text").

Definition pipe (self : Pipeline) (user_message model_id : string)
    (messages : list pyval) (body : dict) : M PipeResult :=
  emit (EvPrint ("pipe:" +:+ module_name w)) ;;
  '(system_message, messages) ← lift (pop_system_message w messages);
  dumped ← lift (json_dumps w messages);
  emit (EvLogInfo ("pop_system_message: " +:+ dumped)) ;;
  try_except
    (processed_messages ← normalize messages;
     let payload :=
       build_payload model_id processed_messages system_message body in
     let region := get_model_region self model_id in
     if truthy (dict_get body "stream" (PBool false)) then
       mret (ReturnedGenerator (stream_response model_id payload region))
     else
       text ← get_completion model_id payload region;
       mret (Returned text))
    (λ e, mret (Returned (PStr ("Error: " +:+ str_exn e)))).

(** What the host sees of one call: it calls [pipe] and, when it is handed
    a generator, iterates over it to the end. *)
Inductive Observation : Type :=
| Completion (v : pyval)
| Deltas (ys : list pyval)
| Fault (ys : list pyval) (e : exn).

Definition dispatch (self : Pipeline) (user_message model_id : string)
    (messages : list pyval) (body : dict) : Observation * list Event :=
  match run (pipe self user_message model_id messages body) with
  | (Raise e, tr) => (Fault [] e, tr)
  | (Ok (Returned v), tr) => (Completion v, tr)
  | (Ok (ReturnedGenerator g), tr) =>
      match drain g tr with
      | ((ys, Ok _), tr') => (Deltas ys, tr')
      | ((ys, Raise e), tr') => (Fault ys e, tr')
      end
  end.

End Dispatch.

(** ** Vocabulary of the statements *)

(** A method is regular when it only appends to the trace and its outcome
    does not depend on the events recorded before it.  Every method of the
    module is. *)
Definition regular {A} (m : M A) : Prop :=
  ∀ tr, m tr = (value_of m, tr ++ trace_of m).

(** The ids that a listing offers: those of its ACTIVE summaries, in the
    listing's order. *)
Definition active_ids (summaries : list ModelSummary) : list string :=
  omap (λ model, if lifecycle_active model then modelId model else None)
       summaries.

(** A summary that carries both keys read by the comprehensions. *)
Definition complete (model : ModelSummary) : Prop :=
  is_Some (modelId model) ∧ is_Some (modelName model).

(** The image references of one content item, of one message and of a
    whole message list, in the order in which [pipe] meets them: the value
    under ["image_url"] of every item whose ["type"] is ["image_url"]. *)
Definition item_images (item : pyval) : list pyval :=
  match item with
  | PDict d =>
      match d !! "type", d !! "image_url" with
      | Some ty, Some image => if py_eq_str ty "image_url" then [image] else []
      | _, _ => []
      end
  | _ => []
  end.

Definition message_images (message : pyval) : list pyval :=
  match message with
  | PDict d =>
      match d !! "content" with
      | Some (PList items) => flat_map item_images items
      | _ => []
      end
  | _ => []
  end.

Definition image_items (messages : list pyval) : list pyval :=
  flat_map message_images messages.

(** Well-formed input: an item is a dict with a ["type"], a text item has a
    ["text"], an image item has an ["image_url"]; a message is a dict with a
    ["role"] whose mixed content, if any, is made of well-formed items. *)
Definition wf_item (item : pyval) : bool :=
  match item with
  | PDict d =>
      match d !! "type" with
      | Some ty =>
          if py_eq_str ty "text" then bool_decide (is_Some (d !! "text"))
          else if py_eq_str ty "image_url"
               then bool_decide (is_Some (d !! "image_url"))
               else true
      | None => false
      end
  | _ => false
  end.

Definition wf_message (message : pyval) : bool :=
  match message with
  | PDict d =>
      bool_decide (is_Some (d !! "role")) &&
      match d !! "content" with
      | Some (PList items) => forallb wf_item items
      | _ => true
      end
  | _ => false
  end.

(** A message with a role and a flat string as content, and what the spec
    says it normalizes to: one text block, role and string verbatim. *)
Definition flat_text_message (message : pyval) : Prop :=
  ∃ d r c, message = PDict d ∧ d !! "role" = Some r ∧
           d !! "content" = Some (PStr c).

Definition flat_normalized (message out : pyval) : Prop :=
  ∃ d r c, message = PDict d ∧ d !! "role" = Some r ∧
           d !! "content" = Some (PStr c) ∧
           out = PDict {[ "role" := r;
                          "content" := PList [PDict {[ "text" := PStr c ]}] ]}.

(** An image content block: a format tag, png or jpeg, and the bytes. *)
Definition is_image_block (block : pyval) : Prop :=
  ∃ format data,
    (format = "png" ∨ format = "jpeg") ∧
    block = PDict {[ "image" :=
              PDict {[ "format" := PStr format;
                       "source" := PDict {[ "bytes" := PBytes data ]} ]} ]}.

Section SpecNormalizer.
Context (w : World).

(** The normalizer in the words of the design (MessageNormalizer), to be
    compared with the loops of [pipe]: a text item becomes a text block, an image
    item becomes the block that the resolver returns, any other item is
    ignored; a flat content becomes one text block. *)
Definition spec_item_blocks (item : pyval) : list pyval :=
  match item with
  | PDict d =>
      match d !! "type" with
      | Some ty =>
          if py_eq_str ty "text" then
            match d !! "text" with
            | Some text => [PDict {[ "text" := text ]}]
            | None => []
            end
          else if py_eq_str ty "image_url" then
            match d !! "image_url" with
            | Some image =>
                match value_of (process_image w image) with
                | Ok block => [block]
                | Raise _ => []
                end
            | None => []
            end
          else []
      | None => []
      end
  | _ => []
  end.

Definition spec_content (content : option pyval) : list pyval :=
  match content with
  | Some (PList items) => flat_map spec_item_blocks items
  | Some c => [PDict {[ "text" := c ]}]
  | None => [PDict {[ "text" := PStr "" ]}]
  end.

Definition spec_message (message : pyval) : pyval :=
  match message with
  | PDict d =>
      PDict {[ "role" := default PNone (d !! "role");
               "content" := PList (spec_content (d !! "content")) ]}
  | _ => PNone
  end.

(** The collaborator calls that resolving the given images makes. *)
Definition image_traces (images : list pyval) : list Event :=
  flat_map (λ image, trace_of (process_image w image)) images.

Definition resolves (image : pyval) : Prop :=
  is_ok (value_of (process_image w image)) = true.

(** What a run of the inner loop of [pipe] can be, whatever the items
    are.  If it returns, it has resolved every image of the items and built the blocks
    of the design; if it raises, it has resolved no more images than there
    was room for under the cap. *)
Definition content_outcome (items pc : list pyval) (n : Z)
    (r : result (list pyval * Z) * list Event) : Prop :=
  let images := flat_map item_images items in
  match r with
  | (Ok (pc', n'), tr) =>
      pc' = pc ++ flat_map spec_item_blocks items ∧
      n' = n + Z.of_nat (length images) ∧ n' ≤ 20 ∧
      tr = image_traces images
  | (Raise _, tr) =>
      ∃ k, (Z.of_nat k ≤ 20 - n) ∧ (k ≤ length images)%nat ∧
           tr = image_traces (take k images)
  end.

(** The same for the outer loop of [pipe]. *)
Definition messages_outcome (messages pm : list pyval) (n : Z)
    (r : result (list pyval) * list Event) : Prop :=
  let images := image_items messages in
  match r with
  | (Ok pm', tr) =>
      pm' = pm ++ (spec_message <$> messages) ∧
      n + Z.of_nat (length images) ≤ 20 ∧
      tr = image_traces images
  | (Raise _, tr) =>
      ∃ k, (Z.of_nat k ≤ 20 - n) ∧ (k ≤ length images)%nat ∧
           tr = image_traces (take k images)
  end.

End SpecNormalizer.

(** The keyword arguments that a trace shows to have been sent to
    [converse] (the blocking operation) and to [converse_stream] (the
    streaming operation), with the client that received them. *)
Definition sent_blocking (tr : list Event) : list (RuntimeClient * dict) :=
  omap (λ ev, match ev with EvConverse c kw => Some (c, kw) | _ => None end) tr.

Definition sent_streaming (tr : list Event) : list (RuntimeClient * dict) :=
  omap (λ ev, match ev with EvConverseStream c kw => Some (c, kw) | _ => None end)
       tr.

(** A method is quiet when it sends nothing to the inference transport. *)
Definition quiet {A} (m : M A) : Prop :=
  sent_blocking (trace_of m) = [] ∧ sent_streaming (trace_of m) = [].

(** What [pipe] has in hand when it builds the payload: the system message
    set aside by [pop_system_message] and the normalized messages; or the
    exception that stopped it before. *)
Definition prepared (w : World) (messages : list pyval)
  : result (pyval * list pyval) :=
  '(system_message, messages') ← pop_system_message w messages;
  _ ← json_dumps w messages';
  processed_messages ← value_of (normalize w messages');
  Ok (system_message, processed_messages).

(** ** Concrete collaborators for the examples *)

(** The value of a character of the standard base64 alphabet. *)
Definition sextet (c : Ascii.ascii) : option N :=
  let n := N_of_ascii c in
  if ((65 <=? n) && (n <=? 90))%N then Some (n - 65)%N
  else if ((97 <=? n) && (n <=? 122))%N then Some (n - 71)%N
  else if ((48 <=? n) && (n <=? 57))%N then Some (n + 4)%N
  else if (n =? 43)%N then Some 62%N
  else if (n =? 47)%N then Some 63%N
  else None.

Definition byte_of_N (n : N) : Byte.byte :=
  default Byte.x00 (Byte.of_N (n mod 256)%N).

(** [binascii.a2b_base64] in its default, non-strict mode, character by
    character: [quad_pos] is the position in the current group of four,
    [leftchar] the bits not yet written, [pads] the padding characters seen
    since the last data character.  Characters outside the alphabet are
    skipped, a padding character before the third position too; a complete
    padding ends the decoding, whatever follows; a group left open at the
    end is an error. *)
Fixpoint a2b_base64 (l : list Ascii.ascii) (quad_pos : nat) (leftchar : N)
    (pads : nat) (out : list Byte.byte) : result (list Byte.byte) :=
  match l with
  | [] =>
      match quad_pos with
      | 0%nat => Ok out
      | 1%nat =>
          Raise (External "binascii.Error"
            ("Invalid base64-encoded string: number of data characters ("
             +:+ pretty (N.of_nat (length out / 3 * 4 + 1)%nat)
             +:+ ") cannot be 1 more than a multiple of 4"))
      | _ => Raise (External "binascii.Error" "Incorrect padding")
      end
  | c :: rest =>
      if Ascii.eqb c "=" then
        if (2 <=? quad_pos)%nat then
          if (4 <=? quad_pos + S pads)%nat then Ok out
          else a2b_base64 rest quad_pos leftchar (S pads) out
        else a2b_base64 rest quad_pos leftchar pads out
      else
        match sextet c with
        | None => a2b_base64 rest quad_pos leftchar pads out
        | Some v =>
            match quad_pos with
            | 0%nat => a2b_base64 rest 1 v 0 out
            | 1%nat =>
                a2b_base64 rest 2 (v mod 16)%N 0
                  (out ++ [byte_of_N (leftchar * 4 + v / 16)%N])
            | 2%nat =>
                a2b_base64 rest 3 (v mod 4)%N 0
                  (out ++ [byte_of_N (leftchar * 16 + v / 4)%N])
            | _ =>
                a2b_base64 rest 0 0%N 0
                  (out ++ [byte_of_N (leftchar * 64 + v)%N])
            end
        end
  end.

(** [base64.b64decode] on a [str]: the text is encoded to ASCII, which fails
    on any other character, and then decoded. *)
Definition b64decode_std (s : string) : result (list Byte.byte) :=
  let l := String.list_ascii_of_string s in
  if existsb (λ c, (128 <=? N_of_ascii c)%N) l then
    Raise (ValueError "string argument should contain only ASCII characters")
  else a2b_base64 l 0 0%N 0 [].

Definition summary (i n st : string) : ModelSummary :=
  {| modelId := Some i; modelName := Some n;
     modelLifecycle := Some {| status := Some st |} |}.

Definition ex_east_listing : ListModelsResponse :=
  {| modelSummaries := Some
       [ summary "anthropic.claude-3" "Claude 3" "ACTIVE";
         summary "amazon.titan-text" "Titan Text" "ACTIVE";
         summary "amazon.old-model" "Old Model" "LEGACY" ] |}.

Definition ex_west_listing : ListModelsResponse :=
  {| modelSummaries := Some
       [ summary "anthropic.claude-3" "Claude 3" "ACTIVE";
         summary "amazon.nova-pro" "Nova Pro" "ACTIVE" ] |}.

Definition ex_profiles : ListProfilesResponse :=
  {| profiles := Some
       [ {| profile_status := Some "ACTIVE";
            profile_modelId := Some "us.anthropic.claude-3";
            profile_modelName := Some "Claude 3 (US)";
            profile_region := None |} ] |}.

Definition ex_throttled : exn :=
  External "ClientError" "An error occurred (ThrottlingException)".

(** A [pop_system_message] for the examples: the first message whose role
    is "system", or [None], and the messages whose role is not "system".  It
    reads [message["role"]] of the messages, and raises when one has none. *)
Fixpoint get_system_message (messages : list pyval) : result pyval :=
  match messages with
  | [] => Ok PNone
  | message :: rest =>
      role ← py_getitem message "role";
      if py_eq_str role "system" then Ok message
      else get_system_message rest
  end.

Fixpoint remove_system_message (messages : list pyval) : result (list pyval) :=
  match messages with
  | [] => Ok []
  | message :: rest =>
      role ← py_getitem message "role";
      kept ← remove_system_message rest;
      Ok (if py_eq_str role "system" then kept else message :: kept)
  end.

Definition pop_system_message_std (messages : list pyval)
  : result (pyval * list pyval) :=
  system_message ← get_system_message messages;
  kept ← remove_system_message messages;
  Ok (system_message, kept).

Definition png_bytes : list Byte.byte :=
  [Byte.x89; Byte.x50; Byte.x4e; Byte.x47].

Definition delta_chunk (text : string) : dict :=
  {[ "contentBlockDelta" :=
       PDict {[ "delta" := PDict {[ "text" := PStr text ]} ]} ]}.

Definition ex_stream : StreamingResponse :=
  {| stream := Some
       {| chunks := [ {[ "messageStart" := PDict {[ "role" := PStr "assistant" ]} ]};
                      delta_chunk "Hel"; delta_chunk "lo";
                      {[ "messageStop" := PDict ∅ ]} ];
          broken := None |} |}.

Definition ex_completion : dict :=
  {[ "output" := PDict {[ "message" := PDict {[ "content" :=
       PList [PDict {[ "text" := PStr "Hello" ]}] ]} ]} ]}.

(** A world built from the answers of the three catalog sources and of the
    streaming transport; the other collaborators behave normally. *)
Definition ex_world (east west : result ListModelsResponse)
    (profs : result ListProfilesResponse)
    (blocking : result dict)
    (streaming : result StreamingResponse) : World :=
  {| module_name := "bedrock_models";
     list_foundation_models c :=
       match c with east_bedrock => east | west_bedrock => west end;
     list_inference_profiles _ := profs;
     pop_system_message := pop_system_message_std;
     json_dumps _ := Ok "[...]";
     b64decode := b64decode_std;
     requests_get url :=
       if String.eqb url "https://example.com/cat.png" then Ok png_bytes
       else if String.eqb url "https://example.com/cat" then Ok png_bytes
       else Raise (External "ConnectionError" "Max retries exceeded");
     converse _ _ := blocking;
     converse_stream _ _ := streaming |}.

Definition ex_healthy : World :=
  ex_world (Ok ex_east_listing) (Ok ex_west_listing)
           (Ok {| profiles := None |}) (Ok ex_completion) (Ok ex_stream).

Definition ex_with_profiles : World :=
  ex_world (Ok ex_east_listing) (Ok ex_west_listing)
           (Ok ex_profiles) (Ok ex_completion) (Ok ex_stream).

Definition ex_both_down : World :=
  ex_world (Raise ex_throttled) (Raise ex_throttled)
           (Ok {| profiles := None |}) (Ok ex_completion) (Ok ex_stream).


Definition ex_transport_down : World :=
  ex_world (Ok ex_east_listing) (Ok ex_west_listing)
           (Ok {| profiles := None |}) (Raise ex_throttled) (Raise ex_throttled).

Definition ex_connection_reset : exn :=
  External "ResponseStreamingError" "Connection reset by peer".

(** The stream delivers one delta and then breaks. *)
Definition ex_stream_breaks : World :=
  ex_world (Ok ex_east_listing) (Ok ex_west_listing)
           (Ok {| profiles := None |}) (Ok ex_completion)
           (Ok {| stream := Some {| chunks := [delta_chunk "Hel"];
                                    broken := Some ex_connection_reset |} |}).

Definition ex_pipeline : Pipeline :=
  {| type := "manifold"; name := "Bedrock: ";
     pipelines :=
       [ {| m_id := "anthropic.claude-3"; m_name := "Claude 3";
            m_region := "us-east-1";
            m_description := Some "Claude 3 - us-east-1" |};
         {| m_id := "amazon.nova-pro"; m_name := "Nova Pro";
            m_region := "us-west-2";
            m_description := Some "Nova Pro - us-west-2" |} ] |}.

Definition ex_degraded_pipeline : Pipeline :=
  {| type := "manifold"; name := "Bedrock: ";
     pipelines := [east_sentinel; west_sentinel] |}.

Definition text_item (text : string) : pyval :=
  PDict {[ "type" := PStr "text"; "text" := PStr text ]}.

Definition image_item (url : string) : pyval :=
  PDict {[ "type" := PStr "image_url";
           "image_url" := PDict {[ "url" := PStr url ]} ]}.

Definition audio_item : pyval :=
  PDict {[ "type" := PStr "input_audio"; "data" := PStr "UklGRg==" ]}.

Definition user_says (content : pyval) : pyval :=
  PDict {[ "role" := PStr "user"; "content" := content ]}.

Definition ex_inline_png : string := "data:image/png;base64,iVBORw==".

(** An inline reference without the comma between metadata and payload. *)
Definition ex_inline_no_comma : string := "data:image/png;base64".

Definition ex_remote_png : string := "https://example.com/cat.png".

(** Twenty images over three messages. *)
Definition ex_twenty_images : list pyval :=
  [ user_says (PList (text_item "look" :: replicate 12 (image_item ex_inline_png)));
    user_says (PStr "and");
    user_says (PList (replicate 8 (image_item ex_inline_png))) ].

(** The same, followed by a twenty-first image, a remote one. *)
Definition ex_twentyone_images : list pyval :=
  ex_twenty_images ++
  [ user_says (PList [text_item "more"; image_item ex_remote_png]) ].

(** Twenty images, the first of which cannot be decoded. *)
Definition ex_twenty_broken : list pyval :=
  [ user_says (PList (image_item ex_inline_no_comma
                      :: replicate 19 (image_item ex_inline_png))) ].

(** Twenty-one images, the first of which cannot be decoded. *)
Definition ex_twentyone_broken : list pyval :=
  ex_twenty_broken ++ [ user_says (PList [image_item ex_remote_png]) ].

Definition ex_chat : list pyval :=
  [ PDict {[ "role" := PStr "user"; "content" := PStr "hello" ]};
    PDict {[ "role" := PStr "assistant"; "content" := PStr "hi, how can I help?";
             "name" := PStr "bot" ]};
    PDict {[ "role" := PStr "user"; "content" := PStr "" ]} ].

Definition ex_mixed : list pyval :=
  [ user_says (PList [ text_item "what is this?"; audio_item;
                       image_item ex_inline_png ]) ].

Definition ex_mixed_normalized : list pyval :=
  [ PDict {[ "role" := PStr "user";
             "content" := PList
               [ PDict {[ "text" := PStr "what is this?" ]};
                 PDict {[ "image" :=
                   PDict {[ "format" := PStr "jpeg";
                            "source" :=
                              PDict {[ "bytes" := PBytes png_bytes ]} ]} ]}
               ] ]} ].

(** ** Further vocabulary: lifecycle hooks, catalog and stream *)

(** [on_startup] and [on_shutdown]: the bodies that run when the host awaits
    the coroutines. *)
Definition on_startup (w : World) : M unit :=
  emit (EvPrint ("on_startup:" +:+ module_name w)).

Definition on_shutdown (w : World) : M unit :=
  emit (EvPrint ("on_shutdown:" +:+ module_name w)).

(** The calls to the three catalog sources, among the events of a trace. *)
Definition is_listing_call (ev : Event) : bool :=
  match ev with
  | EvListFoundationModels _ | EvListInferenceProfiles _ => true
  | _ => false
  end.

Definition listing_calls (tr : list Event) : list Event :=
  List.filter is_listing_call tr.

(** A summary whose keys are there whenever the comprehensions read them. *)
Definition active_complete (model : ModelSummary) : Prop :=
  lifecycle_active model = true → complete model.


(** An ACTIVE summary that lacks one of the two keys. *)
Definition active_incomplete (model : ModelSummary) : Prop :=
  lifecycle_active model = true ∧
  (modelId model = None ∨ modelName model = None).

(** The id and the region of an entry: what routing reads. *)
Definition id_region (m : ModelEntry) : string * string :=
  (m_id m, m_region m).

(** What a chunk of the stream contributes: nothing when it has no
    ["contentBlockDelta"] key, otherwise the outcome of reading
    [chunk["contentBlockDelta"]["delta"]["text"]]. *)
Definition chunk_text (chunk : dict) : option (result pyval) :=
  match chunk !! "contentBlockDelta" with
  | Some cbd => Some (delta ← py_getitem cbd "delta"; py_getitem delta "text")
  | None => None
  end.

(** A chunk that either is no delta or carries its text. *)
Definition chunk_ok (chunk : dict) : bool :=
  match chunk_text chunk with
  | Some (Raise _) => false
  | _ => true
  end.

(** The texts of the chunks that carry one, in order. *)
Definition delta_texts (cs : list dict) : list pyval :=
  omap (λ chunk, match chunk_text chunk with
                 | Some (Ok text) => Some text
                 | _ => None
                 end) cs.

(** The image block that [process_image] builds. *)
Definition image_block (format : string) (data : list Byte.byte) : pyval :=
  PDict {[ "image" :=
    PDict {[ "format" := PStr format;
             "source" := PDict {[ "bytes" := PBytes data ]} ]} ]}.

(** A message that is a dict with a role and whose content, if any, is not
    a list; and the text that its single block holds. *)
Definition plain_message (message : pyval) : bool :=
  match message with
  | PDict d =>
      bool_decide (is_Some (d !! "role")) &&
      match d !! "content" with
      | Some (PList _) => false
      | _ => true
      end
  | _ => false
  end.

Definition plain_normalized (message : pyval) : pyval :=
  match message with
  | PDict d =>
      PDict {[ "role" := default PNone (d !! "role");
               "content" :=
                 PList [PDict {[ "text" := default (PStr "") (d !! "content") ]}] ]}
  | _ => PNone
  end.

(** A us-east-1 listing with a LEGACY summary that lacks its keys, and a
    us-west-2 listing with a summary that has no lifecycle. *)
Definition ex_legacy_without_keys : ModelSummary :=
  {| modelId := None; modelName := None;
     modelLifecycle := Some {| status := Some "LEGACY" |} |}.

Definition ex_ragged : World :=
  ex_world
    (Ok {| modelSummaries := Some
             [ summary "anthropic.claude-3" "Claude 3" "ACTIVE";
               ex_legacy_without_keys;
               summary "amazon.titan-text" "Titan Text" "ACTIVE" ] |})
    (Ok {| modelSummaries := Some
             [ summary "amazon.nova-pro" "Nova Pro" "ACTIVE";
               summary "anthropic.claude-3" "Claude 3" "ACTIVE";
               {| modelId := Some "amazon.no-lifecycle"; modelName := None;
                  modelLifecycle := None |};
               summary "meta.llama3" "Llama 3" "ACTIVE" ] |})
    (Ok {| profiles := None |}) (Ok ex_completion) (Ok ex_stream).

(** A us-east-1 listing in which one ACTIVE summary lacks its name. *)
Definition ex_nameless : World :=
  ex_world
    (Ok {| modelSummaries := Some
             [ summary "anthropic.claude-3" "Claude 3" "ACTIVE";
               {| modelId := Some "amazon.titan-text"; modelName := None;
                  modelLifecycle := Some {| status := Some "ACTIVE" |} |} ] |})
    (Ok ex_west_listing)
    (Ok {| profiles := None |}) (Ok ex_completion) (Ok ex_stream).

(** A provider response whose message has no content block, and one with
    two. *)
Definition ex_empty_completion : dict :=
  {[ "output" := PDict {[ "message" := PDict {[ "content" := PList [] ]} ]} ]}.

Definition ex_two_blocks : dict :=
  {[ "output" := PDict {[ "message" := PDict {[ "content" :=
       PList [ PDict {[ "text" := PStr "first" ]};
               PDict {[ "text" := PStr "second" ]} ] ]} ]} ]}.

Definition ex_answers (blocking : dict) : World :=
  ex_world (Ok ex_east_listing) (Ok ex_west_listing)
           (Ok {| profiles := None |}) (Ok blocking) (Ok ex_stream).

(** A world whose [pop_system_message] raises. *)
Definition ex_pop_fails : World :=
  {| module_name := "bedrock_models";
     list_foundation_models _ := Ok ex_east_listing;
     list_inference_profiles _ := Ok {| profiles := None |};
     pop_system_message _ := Raise (KeyError "'role'");
     json_dumps _ := Ok "[...]";
     b64decode := b64decode_std;
     requests_get _ := Raise (External "ConnectionError" "Max retries exceeded");
     converse _ _ := Ok ex_completion;
     converse_stream _ _ := Ok ex_stream |}.

(** A stream with a delta chunk that has no text, between two good ones. *)
Definition ex_bad_chunk : dict :=
  {[ "contentBlockDelta" := PDict {[ "delta" := PDict {[ "toolUse" := PDict ∅ ]} ]} ]}.

Definition ex_stream_chunks : list dict :=
  [ {[ "messageStart" := PDict {[ "role" := PStr "assistant" ]} ]};
    delta_chunk "Hel"; delta_chunk "lo";
    {[ "messageStop" := PDict ∅ ]} ].

(** ** Mixed content, in the words of the design

    What the design says a mixed content list becomes, written without the
    code of [process_image], to be compared with the loops of [pipe].  An
    inline reference starts with "data:image" and has the separator, a
    comma, between metadata and payload; the payload is the text between
    the first comma and the next one, or the end.  Its block holds the
    decoded payload, tagged png when the reference ends with ".png" and
    jpeg otherwise. *)
Definition inline_image_block (w : World) (image block : pyval) : Prop :=
  ∃ (d : dict) (meta piece tail : string) (data : list Byte.byte),
    image = PDict d ∧
    d !! "url" = Some (PStr (meta +:+ String "," (piece +:+ tail))) ∧
    startswith (meta +:+ String "," (piece +:+ tail)) "data:image" = true ∧
    str_contains "," meta = false ∧ str_contains "," piece = false ∧
    (tail = "" ∨ ∃ t, tail = String "," t) ∧
    b64decode w piece = Ok data ∧
    block =
      image_block
        (if endswith (meta +:+ String "," (piece +:+ tail)) ".png"
         then "png" else "jpeg") data.

(** The blocks of one item: a text item becomes one text block with its
    text, an image item with an inline reference that decodes becomes the
    block of that reference, an item of any other type becomes nothing. *)
Inductive item_becomes (w : World) : pyval → list pyval → Prop :=
| text_item_becomes (d : dict) (text : pyval) :
    d !! "type" = Some (PStr "text") → d !! "text" = Some text →
    item_becomes w (PDict d) [PDict {[ "text" := text ]}]
| image_item_becomes (d : dict) (image block : pyval) :
    d !! "type" = Some (PStr "image_url") → d !! "image_url" = Some image →
    inline_image_block w image block →
    item_becomes w (PDict d) [block]
| other_item_ignored (d : dict) (ty : pyval) :
    d !! "type" = Some ty → ty ≠ PStr "text" → ty ≠ PStr "image_url" →
    item_becomes w (PDict d) [].

(** The normalized form of one message: the role, and one text block for a
    flat string, or the blocks of the items of a mixed list, in order. *)
Inductive message_becomes (w : World) : pyval → pyval → Prop :=
| flat_message_becomes (d : dict) (r : pyval) (c : string) :
    d !! "role" = Some r → d !! "content" = Some (PStr c) →
    message_becomes w (PDict d)
      (PDict {[ "role" := r;
                "content" := PList [PDict {[ "text" := PStr c ]}] ]})
| mixed_message_becomes (d : dict) (r : pyval) (items : list pyval)
      (blocks : list (list pyval)) :
    d !! "role" = Some r → d !! "content" = Some (PList items) →
    Forall2 (item_becomes w) items blocks →
    message_becomes w (PDict d)
      (PDict {[ "role" := r; "content" := PList (concat blocks) ]}).

(** An inline reference whose payload is cut short: six characters, no
    padding. *)
Definition ex_inline_truncated : string := "data:image/png;base64,iVBORw".

Definition ex_mixed_truncated : list pyval :=
  [ user_says (PList [ text_item "what is this?";
                       image_item ex_inline_truncated ]) ].

(** * Properties *)

(** ** Laws of the monad [M] *)

Create HintDb regular discriminated.

Section MonadLaws.
Context {A B : Type}.

Lemma regular_ret (a : A) : regular (mret a).
Proof. intros tr. unfold value_of, trace_of, run. cbn. by rewrite app_nil_r. Qed.

Lemma regular_lift (r : result A) : regular (lift r).
Proof. intros tr. unfold value_of, trace_of, run, lift. cbn. by rewrite app_nil_r. Qed.

Lemma regular_raise (e : exn) : regular (@raise A e).
Proof. apply regular_lift. Qed.

Lemma regular_emit (ev : Event) : regular (emit ev).
Proof. intros tr. reflexivity. Qed.

Lemma run_bind (m : M A) (f : A → M B) :
  regular m → (∀ a, regular (f a)) →
  run (m ≫= f) =
    match value_of m with
    | Ok a => (value_of (f a), trace_of m ++ trace_of (f a))
    | Raise e => (Raise e, trace_of m)
    end.
Proof.
  intros Hm Hf. unfold run, mbind, M_bind. rewrite (Hm []). cbn.
  destruct (value_of m) as [a|e]; [|done]. by rewrite (Hf a).
Qed.

Lemma regular_bind (m : M A) (f : A → M B) :
  regular m → (∀ a, regular (f a)) → regular (m ≫= f).
Proof.
  intros Hm Hf tr. unfold value_of, trace_of. rewrite run_bind by done.
  unfold mbind, M_bind. rewrite (Hm tr).
  destruct (value_of m) as [a|e]; cbn; [|done].
  by rewrite (Hf a), app_assoc.
Qed.

Lemma value_of_bind (m : M A) (f : A → M B) :
  regular m → (∀ a, regular (f a)) →
  value_of (m ≫= f) =
    match value_of m with Ok a => value_of (f a) | Raise e => Raise e end.
Proof.
  intros Hm Hf. unfold value_of at 1. rewrite run_bind by done.
  by destruct (value_of m).
Qed.

Lemma trace_of_bind (m : M A) (f : A → M B) :
  regular m → (∀ a, regular (f a)) →
  trace_of (m ≫= f) =
    trace_of m ++ match value_of m with Ok a => trace_of (f a) | Raise _ => [] end.
Proof.
  intros Hm Hf. unfold trace_of at 1. rewrite run_bind by done.
  destruct (value_of m); cbn; [done|by rewrite app_nil_r].
Qed.

Lemma run_try_except (body : M A) (handler : exn → M A) :
  regular body → (∀ e, regular (handler e)) →
  run (try_except body handler) =
    match value_of body with
    | Ok a => (Ok a, trace_of body)
    | Raise e => (value_of (handler e), trace_of body ++ trace_of (handler e))
    end.
Proof.
  intros Hb Hh. unfold run, try_except. rewrite (Hb []). cbn.
  destruct (value_of body) as [a|e]; [done|]. by rewrite (Hh e).
Qed.

Lemma regular_try_except (body : M A) (handler : exn → M A) :
  regular body → (∀ e, regular (handler e)) →
  regular (try_except body handler).
Proof.
  intros Hb Hh tr. unfold value_of, trace_of. rewrite run_try_except by done.
  unfold try_except. rewrite (Hb tr).
  destruct (value_of body) as [a|e]; cbn; [done|].
  by rewrite (Hh e), app_assoc.
Qed.

Lemma regular_call (ev : Event) (answer : result A) : regular (call ev answer).
Proof.
  intros tr. unfold call, value_of, trace_of, run, mbind, M_bind, emit, lift.
  by cbn.
Qed.

Lemma run_call (ev : Event) (answer : result A) :
  run (call ev answer) = (answer, [ev]).
Proof. reflexivity. Qed.

End MonadLaws.

#[global] Hint Resolve regular_ret regular_lift regular_raise regular_emit
  regular_bind regular_try_except regular_call : regular.

Ltac regular := eauto 20 with regular.

(** ** The catalog: [get_models] *)

Lemma east_comprehension_complete (es : list ModelSummary) :
  Forall complete es →
  ∃ E, east_comprehension es = Ok E ∧ m_id <$> E = active_ids es ∧
       Forall (λ m, m_region m = "us-east-1") E.
Proof.
  induction 1 as [|model es [[i Hi] [n Hn]] _ (E & HE & Hids & Hreg)].
  - exists []. by repeat split.
  - unfold active_ids. cbn [east_comprehension omap list_omap].
    fold (active_ids es).
    destruct (lifecycle_active model); [|by exists E].
    rewrite Hi, Hn. cbn. rewrite HE. cbn. eexists. split; [done|].
    split; [by rewrite <- Hids|]. by constructor.
Qed.

Lemma west_comprehension_complete (east_ids : gset string)
    (ws : list ModelSummary) :
  Forall complete ws →
  ∃ W, west_comprehension east_ids ws = Ok W ∧
       m_id <$> W = filter (λ i, i ∉ east_ids) (active_ids ws) ∧
       Forall (λ m, m_region m = "us-west-2") W.
Proof.
  induction 1 as [|model ws [[i Hi] [n Hn]] _ (W & HW & Hids & Hreg)].
  - exists []. by repeat split.
  - unfold active_ids. cbn [west_comprehension omap list_omap].
    fold (active_ids ws).
    destruct (lifecycle_active model); [|by exists W].
    rewrite Hi, Hn. cbn.
    case_bool_decide as Hin.
    + rewrite decide_True by done. rewrite HW. cbn. eexists. split; [done|].
      split; [by rewrite fmap_cons, Hids|]. by constructor.
    + case_decide; [done|]. by exists W.
Qed.

(** The comprehension of [get_cross_region_profiles] never builds an entry:
    the first profile that passes the filter raises [NameError]. *)
Lemma cross_comprehension_builds_nothing (east_ids : gset string)
    (ps : list Profile) :
  cross_comprehension east_ids ps = Ok [] ∨
  ∃ e, cross_comprehension east_ids ps = Raise e.
Proof.
  induction ps as [|profile ps IH]; [by left|].
  cbn [cross_comprehension].
  case_bool_decide; [|done].
  destruct (profile_modelId profile) as [k|]; cbn; [|by eauto].
  case_bool_decide; [|done].
  destruct (profile_modelName profile); cbn; by eauto.
Qed.

Section CatalogFacts.
Context (w : World).

Lemma regular_get_east_models : regular (get_east_models w).
Proof. unfold get_east_models. regular. Qed.

Lemma regular_get_cross_region_profiles ids :
  regular (get_cross_region_profiles w ids).
Proof. unfold get_cross_region_profiles. regular. Qed.

Lemma regular_get_west_models ids : regular (get_west_models w ids).
Proof. unfold get_west_models. regular. Qed.

Lemma regular_get_models : regular (get_models w).
Proof.
  unfold get_models.
  pose proof regular_get_east_models.
  pose proof regular_get_cross_region_profiles.
  pose proof regular_get_west_models.
  regular.
Qed.

(** Whatever the profile source answers, the cross-region group is empty,
    and the source has been queried. *)
Lemma get_cross_region_profiles_empty (ids : gset string) :
  value_of (get_cross_region_profiles w ids) = Ok [] ∧
  EvListInferenceProfiles east_bedrock
    ∈ trace_of (get_cross_region_profiles w ids).
Proof.
  unfold value_of, trace_of, run, get_cross_region_profiles, try_except,
    call, emit, lift, mbind, M_bind, mret, M_ret. cbn.
  destruct (list_inference_profiles w east_bedrock) as [response|e]; cbn.
  - destruct (cross_comprehension_builds_nothing ids
                (default [] (profiles response))) as [->|[e ->]]; cbn;
      split; try done; set_solver.
  - split; [done|set_solver].
Qed.

Lemma get_east_models_ok (es : list ModelSummary) :
  list_foundation_models w east_bedrock = Ok {| modelSummaries := Some es |} →
  Forall complete es →
  ∃ E, value_of (get_east_models w) = Ok E ∧ m_id <$> E = active_ids es ∧
       Forall (λ m, m_region m = "us-east-1") E.
Proof.
  intros Hw Hes.
  destruct (east_comprehension_complete es Hes) as (E & HE & Hids & Hreg).
  exists E. split; [|done].
  unfold value_of, run, get_east_models, try_except,
    call, emit, lift, mbind, M_bind, mret, M_ret. cbn.
  rewrite Hw. cbn. by rewrite HE.
Qed.

Lemma get_west_models_ok (ids : gset string) (ws : list ModelSummary) :
  list_foundation_models w west_bedrock = Ok {| modelSummaries := Some ws |} →
  Forall complete ws →
  ∃ W, west_comprehension ids ws = Ok W ∧
       value_of (get_west_models w ids) = Ok W ∧
       m_id <$> W = filter (λ i, i ∉ ids) (active_ids ws) ∧
       Forall (λ m, m_region m = "us-west-2") W.
Proof.
  intros Hw Hws.
  destruct (west_comprehension_complete ids ws Hws) as (W & HW & Hids & Hreg).
  exists W. split; [done|]. split; [|done].
  unfold value_of, run, get_west_models, try_except,
    call, emit, lift, mbind, M_bind, mret, M_ret. cbn.
  rewrite Hw. cbn. by rewrite HW.
Qed.

(** [get_models] puts the three groups one after the other. *)
Lemma get_models_groups (E W : list ModelEntry) :
  value_of (get_east_models w) = Ok E →
  value_of (get_west_models w (list_to_set (m_id <$> E))) = Ok W →
  value_of (get_models w) = Ok (E ++ W).
Proof.
  intros HE HW. unfold get_models.
  pose proof regular_get_east_models.
  pose proof regular_get_cross_region_profiles.
  pose proof regular_get_west_models.
  rewrite value_of_bind by regular. rewrite HE.
  rewrite value_of_bind by regular.
  rewrite (proj1 (get_cross_region_profiles_empty _)).
  rewrite value_of_bind by regular. rewrite HW. done.
Qed.

End CatalogFacts.

Section CatalogClaims.
Context (w : World).

Lemma get_east_models_total : ∃ E, value_of (get_east_models w) = Ok E.
Proof.
  unfold value_of. unfold get_east_models.
  rewrite run_try_except by regular.
  match goal with |- context [value_of ?m] => destruct (value_of m) end;
    cbn; eauto.
Qed.





End CatalogClaims.

(** C1, as the code has it.  When both region listings answer, every summary
    carries its id and name, and neither listing repeats an ACTIVE id, the
    catalog of [get_models] has no two entries with the same id; and for an
    id that is ACTIVE in both the us-east-1 and the us-west-2 listing, the
    catalog holds the us-east-1 entry and no other entry with that id. *)
Theorem get_models_unique_ids (w : World) (es ws : list ModelSummary) :
  list_foundation_models w east_bedrock = Ok {| modelSummaries := Some es |} →
  list_foundation_models w west_bedrock = Ok {| modelSummaries := Some ws |} →
  Forall complete es → Forall complete ws →
  NoDup (active_ids es) → NoDup (active_ids ws) →
  ∃ cat, value_of (get_models w) = Ok cat ∧
    NoDup (m_id <$> cat) ∧
    ∀ i, i ∈ active_ids es → i ∈ active_ids ws →
      (∃ m, m ∈ cat ∧ m_id m = i ∧ m_region m = "us-east-1") ∧
      (∀ m, m ∈ cat → m_id m = i → m_region m = "us-east-1").
Proof.
  intros HwE HwW Hes Hws NDe NDw.
  destruct (get_east_models_ok w es HwE Hes) as (E & HE & HidE & HregE).
  destruct (get_west_models_ok w (list_to_set (m_id <$> E)) ws HwW Hws)
    as (W & _ & HW & HidW & HregW).
  exists (E ++ W). split; [by apply get_models_groups|].
  assert (∀ m, m ∈ W → m_id m ∉ m_id <$> E) as Hfresh.
  { intros m Hm.
    assert (m_id m ∈ m_id <$> W) as Hin by (apply list_elem_of_fmap; eauto).
    rewrite HidW in Hin. apply list_elem_of_filter in Hin as [Hin _].
    by rewrite elem_of_list_to_set in Hin. }
  split.
  - rewrite fmap_app. apply NoDup_app. split; [by rewrite HidE|]. split.
    + intros i HiE HiW. apply list_elem_of_fmap in HiW as (m & -> & Hm).
      by apply (Hfresh m).
    + rewrite HidW. by apply NoDup_filter.
  - intros i HiE _. rewrite <- HidE in HiE. split.
    + apply list_elem_of_fmap in HiE as (m & -> & Hm). exists m.
      split; [apply elem_of_app; by left|]. split; [done|].
      by apply (proj1 (Forall_forall _ _) HregE).
    + intros m Hm <-. apply elem_of_app in Hm as [Hm|Hm].
      * by apply (proj1 (Forall_forall _ _) HregE).
      * by destruct (Hfresh m Hm).
Qed.

Lemma get_models_unique_ids_witness :
  ∃ cat, value_of (get_models ex_healthy) = Ok cat ∧
    NoDup (m_id <$> cat) ∧
    ∀ i, i ∈ active_ids (default [] (modelSummaries ex_east_listing)) →
         i ∈ active_ids (default [] (modelSummaries ex_west_listing)) →
      (∃ m, m ∈ cat ∧ m_id m = i ∧ m_region m = "us-east-1") ∧
      (∀ m, m ∈ cat → m_id m = i → m_region m = "us-east-1").
Proof.
  apply (get_models_unique_ids ex_healthy).
  - reflexivity.
  - reflexivity.
  - repeat constructor; by eexists.
  - repeat constructor; by eexists.
  - apply (bool_decide_unpack _). by vm_compute.
  - apply (bool_decide_unpack _). by vm_compute.
Defined.

(** C1, as the spec states it, fails: when both region listings raise, the
    catalog is the two failure sentinels, and both have the id "error". *)
Lemma get_models_duplicate_error_ids :
  ∃ cat, value_of (get_models ex_both_down) = Ok cat ∧ ¬ NoDup (m_id <$> cat).
Proof.
  exists [east_sentinel; west_sentinel]. split; [by vm_compute|].
  cbn. intros Hnd. apply NoDup_cons in Hnd as [Hnotin _]. apply Hnotin. by left.
Qed.




(** C6, evaluated where it fails.  The profile source answers with one
    ACTIVE profile whose id is not in the us-east-1 listing; building its
    entry raises [NameError], the handler of [get_cross_region_profiles]
    returns the empty list, and the catalog has no entry for the profile. *)
Theorem active_profile_dropped_from_catalog :
  run (get_models ex_with_profiles) =
    (Ok [ {| m_id := "anthropic.claude-3"; m_name := "Claude 3";
             m_region := "us-east-1";
             m_description := Some "Claude 3 - us-east-1" |};
          {| m_id := "amazon.titan-text"; m_name := "Titan Text";
             m_region := "us-east-1";
             m_description := Some "Titan Text - us-east-1" |};
          {| m_id := "amazon.nova-pro"; m_name := "Nova Pro";
             m_region := "us-west-2";
             m_description := Some "Nova Pro - us-west-2" |} ],
     [ EvListFoundationModels east_bedrock;
       EvListInferenceProfiles east_bedrock;
       EvPrint "Error fetching cross-region profiles: name 'model' is not defined";
       EvListFoundationModels west_bedrock ]).
Proof. by vm_compute. Qed.

(** ** Routing: [get_model_region] and [get_runtime_client] *)

Lemma get_model_region_in_absent (ps : list ModelEntry) (model_id : string) :
  (∀ m, m ∈ ps → m_id m ≠ model_id) →
  get_model_region_in ps model_id = "us-east-1".
Proof.
  induction ps as [|m ps IH]; intros Habs; [done|]. cbn.
  destruct (String.eqb_spec (m_id m) model_id) as [Heq|_].
  - destruct (Habs m); [by left|done].
  - apply IH. intros m' Hm'. apply Habs. by right.
Qed.

(** C8.  An id that no catalog entry carries resolves to "us-east-1", hence
    to the us-east-1 runtime client; and whatever the id, the resolved
    region maps to one of the two pre-built runtime clients. *)
Theorem get_model_region_absent (self : Pipeline) (model_id : string) :
  (∀ m, m ∈ pipelines self → m_id m ≠ model_id) →
  get_model_region self model_id = "us-east-1" ∧
  get_runtime_client (get_model_region self model_id) = east_bedrock_runtime ∧
  ∀ any_id, get_runtime_client (get_model_region self any_id)
              ∈ [east_bedrock_runtime; west_bedrock_runtime].
Proof.
  intros Habs. unfold get_model_region.
  rewrite get_model_region_in_absent by done. repeat split.
  intros any_id. destruct (get_runtime_client _); set_solver.
Qed.

Lemma get_model_region_absent_witness :
  get_model_region ex_pipeline "meta.llama3" = "us-east-1" ∧
  get_runtime_client (get_model_region ex_pipeline "meta.llama3")
    = east_bedrock_runtime ∧
  ∀ any_id, get_runtime_client (get_model_region ex_pipeline any_id)
              ∈ [east_bedrock_runtime; west_bedrock_runtime].
Proof.
  apply (get_model_region_absent ex_pipeline "meta.llama3").
  intros m Hm. cbn in Hm.
  repeat (apply elem_of_cons in Hm as [->|Hm]); [done|done|].
  by apply elem_of_nil in Hm.
Defined.

(** C10.  The region returned for an id is the region of the first catalog
    entry, in published order, that carries the id; later entries with the
    same id have no say. *)
Theorem get_model_region_first_match (self : Pipeline)
    (before after : list ModelEntry) (m : ModelEntry) (model_id : string) :
  pipelines self = before ++ m :: after →
  (∀ m', m' ∈ before → m_id m' ≠ model_id) →
  m_id m = model_id →
  get_model_region self model_id = m_region m.
Proof.
  unfold get_model_region. intros -> Hbefore Hm.
  induction before as [|b before IH]; cbn.
  - by rewrite (proj2 (String.eqb_eq _ _) Hm).
  - destruct (String.eqb_spec (m_id b) model_id) as [Heq|_].
    + destruct (Hbefore b); [by left|done].
    + apply IH. intros m' Hm'. apply Hbefore. by right.
Qed.

Lemma get_model_region_first_match_witness :
  get_model_region ex_degraded_pipeline "error" = "us-east-1".
Proof.
  apply (get_model_region_first_match ex_degraded_pipeline
           [] [west_sentinel] east_sentinel "error").
  - reflexivity.
  - intros m' Hm'. by apply elem_of_nil in Hm'.
  - reflexivity.
Defined.

(** ** Dispatch: regularity of the methods *)

Ltac regular_step :=
  first
    [ apply regular_ret | apply regular_lift | apply regular_raise
    | apply regular_emit | apply regular_call
    | apply regular_bind; [|intros ?]
    | apply regular_try_except; [|intros ?]
    | match goal with
      | |- regular (if ?b then _ else _) => destruct b
      | |- regular (match ?x with _ => _ end) => destruct x
      | |- regular (let '(_, _) := ?x in _) => destruct x
      end ].

Section DispatchFacts.
Context (w : World).

Lemma regular_process_image (image : pyval) : regular (process_image w image).
Proof. unfold process_image. repeat regular_step. Qed.

Lemma regular_pipe_content_loop (items pc : list pyval) (n : Z) :
  regular (pipe_content_loop w items pc n).
Proof.
  revert pc n. induction items as [|item items IH]; intros pc n; cbn.
  - apply regular_ret.
  - pose proof regular_process_image. repeat (regular_step || apply IH || done).
Qed.

Lemma regular_pipe_messages_loop (messages pm : list pyval) (n : Z) :
  regular (pipe_messages_loop w messages pm n).
Proof.
  revert pm n. induction messages as [|m messages IH]; intros pm n; cbn.
  - apply regular_ret.
  - pose proof regular_pipe_content_loop.
    repeat (regular_step || apply IH || done).
Qed.

Lemma regular_normalize (messages : list pyval) : regular (normalize w messages).
Proof. apply regular_pipe_messages_loop. Qed.

Lemma regular_get_completion (model_id : string) (payload : dict)
    (region : string) : regular (get_completion w model_id payload region).
Proof. unfold get_completion. repeat regular_step. Qed.

End DispatchFacts.

(** ** Dispatch: the normalization loops *)

Lemma py_eq_str_true (v : pyval) (lit : string) :
  py_eq_str v lit = true → v = PStr lit.
Proof.
  destruct v; cbn; try done. intros H. by apply String.eqb_eq in H as ->.
Qed.

Lemma run_lift_bind {A B} (a : A) (f : A → M B) :
  run (lift (Ok a) ≫= f) = run (f a).
Proof. reflexivity. Qed.

Lemma run_ret {A} (a : A) : run (mret a : M A) = (Ok a, []).
Proof. reflexivity. Qed.

Lemma lift_ok_bind {A B} (a : A) (f : A → M B) : lift (Ok a) ≫= f = f a.
Proof. reflexivity. Qed.

Section Loops.
Context (w : World).

Lemma image_traces_app (l1 l2 : list pyval) :
  image_traces w (l1 ++ l2) = image_traces w l1 ++ image_traces w l2.
Proof. unfold image_traces. by rewrite flat_map_app. Qed.

(** One step of the inner loop, for each kind of well-formed item. *)
Lemma content_step (item : pyval) (rest pc : list pyval) (n : Z) :
  wf_item item = true →
  (∃ text, item_images item = [] ∧
           spec_item_blocks w item = [] ∧
           pipe_content_loop w (item :: rest) pc n
             = pipe_content_loop w rest pc n ∨
           item_images item = [] ∧
           spec_item_blocks w item = [PDict {[ "text" := text ]}] ∧
           pipe_content_loop w (item :: rest) pc n
             = pipe_content_loop w rest (pc ++ [PDict {[ "text" := text ]}]) n) ∨
  (∃ image, item_images item = [image] ∧
     spec_item_blocks w item =
       match value_of (process_image w image) with
       | Ok block => [block]
       | Raise _ => []
       end ∧
     pipe_content_loop w (item :: rest) pc n =
       if 20 <=? n then raise (ValueError image_limit_message)
       else processed_image ← process_image w image;
            pipe_content_loop w rest (pc ++ [processed_image]) (n + 1)).
Proof.
  destruct item as [| | | | | | |d]; try done. cbn [wf_item].
  destruct (d !! "type") as [ty|] eqn:Hty; [|done].
  destruct (py_eq_str ty "text") eqn:Htext.
  - intros [text Htx]%bool_decide_eq_true. left. exists text. right.
    apply py_eq_str_true in Htext as ->.
    unfold item_images, spec_item_blocks. cbn [pipe_content_loop py_getitem].
    rewrite Hty, Htx, !lift_ok_bind. cbn. by destruct (d !! "image_url").
  - destruct (py_eq_str ty "image_url") eqn:Himg.
    + intros [image Him]%bool_decide_eq_true. right. exists image.
      unfold item_images, spec_item_blocks. cbn [pipe_content_loop py_getitem].
      rewrite Hty, Him, lift_ok_bind, Htext, Himg.
      by destruct (20 <=? n); rewrite ?lift_ok_bind.
    + intros _. left. exists PNone. left.
      unfold item_images, spec_item_blocks. cbn [pipe_content_loop py_getitem].
      rewrite Hty, lift_ok_bind, Htext, Himg.
      by destruct (d !! "image_url").
Qed.

(** The inner loop when the cap is not reached. *)
Lemma content_loop_within (items pc : list pyval) (n : Z) :
  forallb wf_item items = true →
  Forall (resolves w) (flat_map item_images items) →
  n + Z.of_nat (length (flat_map item_images items)) ≤ 20 →
  run (pipe_content_loop w items pc n) =
    (Ok (pc ++ flat_map (spec_item_blocks w) items,
         n + Z.of_nat (length (flat_map item_images items))),
     image_traces w (flat_map item_images items)).
Proof.
  revert pc n. induction items as [|item items IH]; intros pc n Hwf Hres Hcap.
  - cbn. by rewrite app_nil_r, Z.add_0_r.
  - cbn [forallb] in Hwf. apply andb_prop in Hwf as [Hitem Hwf].
    cbn [flat_map] in *.
    destruct (content_step item items pc n Hitem)
      as [[text [(Him & Hsp & ->)|(Him & Hsp & ->)]]|(image & Him & Hsp & ->)];
      rewrite Him, Hsp in *; cbn [app] in *.
    + by apply IH.
    + rewrite IH by done. by rewrite <- app_assoc.
    + apply Forall_cons in Hres as [Himage Hres].
      cbn [length] in *.
      destruct (Z.leb_spec 20 n) as [?|Hlt]; [lia|].
      unfold resolves in Himage.
      destruct (value_of (process_image w image)) as [block|] eqn:Hv; [|done].
      rewrite run_bind
        by (auto using regular_process_image, regular_pipe_content_loop).
      rewrite Hv. unfold value_of, trace_of. rewrite IH by (done || lia).
      cbn [fst snd]. rewrite <- app_assoc. cbn [app].
      do 2 f_equal. f_equal. lia.
Qed.

(** The inner loop when the cap is reached: it raises, after resolving
    only the images for which there was room. *)
Lemma content_loop_exceeds (items pc : list pyval) (n : Z) :
  n ≤ 20 →
  forallb wf_item items = true →
  Forall (resolves w)
    (take (Z.to_nat (20 - n)) (flat_map item_images items)) →
  20 < n + Z.of_nat (length (flat_map item_images items)) →
  run (pipe_content_loop w items pc n) =
    (Raise (ValueError image_limit_message),
     image_traces w (take (Z.to_nat (20 - n)) (flat_map item_images items))).
Proof.
  revert pc n.
  induction items as [|item items IH]; intros pc n Hn Hwf Hres Hcap.
  - cbn in Hcap. lia.
  - cbn [forallb] in Hwf. apply andb_prop in Hwf as [Hitem Hwf].
    cbn [flat_map] in *.
    destruct (content_step item items pc n Hitem)
      as [[text [(Him & Hsp & ->)|(Him & Hsp & ->)]]|(image & Him & Hsp & ->)];
      rewrite Him in *; cbn [app] in *.
    + by apply IH.
    + by apply IH.
    + cbn [length] in *.
      destruct (Z.leb_spec 20 n) as [Hge|Hlt].
      * replace (Z.to_nat (20 - n)) with 0%nat by lia. done.
      * replace (Z.to_nat (20 - n)) with (S (Z.to_nat (20 - (n + 1)))) in *
          by lia.
        cbn [take] in *. apply Forall_cons in Hres as [Himage Hres].
        unfold resolves in Himage.
        destruct (value_of (process_image w image)) as [block|] eqn:Hv;
          [|done].
        rewrite run_bind
          by (auto using regular_process_image, regular_pipe_content_loop).
        rewrite Hv. unfold value_of, trace_of. rewrite IH by (done || lia).
        done.
Qed.

(** One step of the outer loop on a well-formed message. *)
Lemma messages_step (d : dict) (rest pm : list pyval) (n : Z) :
  wf_message (PDict d) = true →
  run (pipe_messages_loop w (PDict d :: rest) pm n) =
  run (p ← match d !! "content" with
         | Some (PList items) => pipe_content_loop w items [] n
         | _ => mret (spec_content w (d !! "content"), n)
         end;
     pipe_messages_loop w rest
       (pm ++ [PDict {[ "role" := default PNone (d !! "role");
                        "content" := PList p.1 ]}]) p.2).
Proof.
  cbn [wf_message]. intros [[r Hr]%bool_decide_eq_true _]%andb_prop.
  cbn [pipe_messages_loop py_get py_getitem]. unfold dict_get.
  rewrite Hr, lift_ok_bind. unfold run, mbind, M_bind.
  destruct (d !! "content") as [[]|]; cbn; try done.
  by destruct (pipe_content_loop w l [] n []) as [[[pc ic]|e] tr].
Qed.

Lemma wf_message_inv (m : pyval) :
  wf_message m = true →
  ∃ d, m = PDict d ∧
    (match d !! "content" with
     | Some (PList items) =>
         forallb wf_item items = true ∧
         message_images m = flat_map item_images items
     | _ => message_images m = []
     end).
Proof.
  destruct m as [| | | | | | |d]; try done. cbn [wf_message message_images].
  intros [_ Hc]%andb_prop. exists d. split; [done|].
  by destruct (d !! "content") as [[]|].
Qed.

(** The outer loop when the cap is not reached: every message is
    normalized as the design says, and every image is resolved, in order. *)
Lemma messages_loop_within (messages pm : list pyval) (n : Z) :
  forallb wf_message messages = true →
  Forall (resolves w) (image_items messages) →
  n + Z.of_nat (length (image_items messages)) ≤ 20 →
  run (pipe_messages_loop w messages pm n) =
    (Ok (pm ++ (spec_message w <$> messages)),
     image_traces w (image_items messages)).
Proof.
  revert pm n.
  induction messages as [|m messages IH]; intros pm n Hwf Hres Hcap.
  - cbn. by rewrite app_nil_r.
  - cbn [forallb] in Hwf. apply andb_prop in Hwf as [Hm Hwf].
    destruct (wf_message_inv m Hm) as (d & -> & Hcontent).
    rewrite messages_step by done.
    unfold image_items in *. cbn [flat_map] in *.
    rewrite length_app in Hcap. apply Forall_app in Hres as [Hres1 Hres2].
    rewrite fmap_cons. cbn [spec_message].
    destruct (d !! "content") as [[| | | | | |items|]|] eqn:Hc;
      try (rewrite Hcontent in *; cbn [app length] in *;
           rewrite run_lift_bind || change (mret ?x ≫= ?f) with (f x);
           cbn [fst snd]; rewrite IH by (done || lia);
           by rewrite <- app_assoc).
    destruct Hcontent as [Hitems Himgs]. rewrite Himgs in *.
    rewrite run_bind
      by (auto using regular_pipe_content_loop, regular_pipe_messages_loop).
    unfold value_of at 1. unfold trace_of at 1.
    rewrite content_loop_within by (done || lia). cbn [fst snd app].
    unfold value_of, trace_of. rewrite IH by (done || lia). cbn [fst snd].
    by rewrite <- app_assoc, image_traces_app.
Qed.

(** The outer loop when the cap is reached: it raises the limit error,
    after resolving only the images for which there was room. *)
Lemma messages_loop_exceeds (messages pm : list pyval) (n : Z) :
  n ≤ 20 →
  forallb wf_message messages = true →
  Forall (resolves w) (take (Z.to_nat (20 - n)) (image_items messages)) →
  20 < n + Z.of_nat (length (image_items messages)) →
  run (pipe_messages_loop w messages pm n) =
    (Raise (ValueError image_limit_message),
     image_traces w (take (Z.to_nat (20 - n)) (image_items messages))).
Proof.
  revert pm n.
  induction messages as [|m messages IH]; intros pm n Hn Hwf Hres Hcap.
  - cbn in Hcap. lia.
  - cbn [forallb] in Hwf. apply andb_prop in Hwf as [Hm Hwf].
    destruct (wf_message_inv m Hm) as (d & -> & Hcontent).
    rewrite messages_step by done.
    unfold image_items in *. cbn [flat_map] in *.
    rewrite length_app in Hcap.
    destruct (d !! "content") as [[| | | | | |items|]|] eqn:Hc;
      try (rewrite Hcontent in *; cbn [app length] in *;
           rewrite run_lift_bind || change (mret ?x ≫= ?f) with (f x);
           cbn [fst snd]; by rewrite IH by (done || lia)).
    destruct Hcontent as [Hitems Himgs]. rewrite Himgs in *.
    remember (flat_map message_images messages) as ri eqn:Hri.
    rewrite run_bind
      by (auto using regular_pipe_content_loop, regular_pipe_messages_loop).
    unfold value_of, trace_of.
    destruct (Z.le_gt_cases
                (n + Z.of_nat (length (flat_map item_images items))) 20)
      as [Hfit|Hover].
    + rewrite take_app_ge in * by lia.
      apply Forall_app in Hres as [Hres1 Hres2].
      rewrite content_loop_within by (done || lia). cbn [fst snd].
      replace (Z.to_nat (20 - n) - length (flat_map item_images items))%nat
        with (Z.to_nat
                (20 - (n + Z.of_nat (length (flat_map item_images items)))))
        in * by lia.
      subst ri. rewrite IH by (done || lia). cbn [fst snd].
      by rewrite image_traces_app.
    + rewrite take_app_le in * by lia.
      by rewrite content_loop_exceeds by (done || lia).
Qed.

End Loops.

(** ** Dispatch: the normalization loops on arbitrary input *)

Lemma py_getitem_ok (v x : pyval) (k : string) :
  py_getitem v k = Ok x → ∃ d, v = PDict d ∧ d !! k = Some x.
Proof.
  destruct v as [| | | | | | |d]; try done. cbn.
  destruct (d !! k) as [y|] eqn:Hk; [|done]. intros [= <-]. eauto.
Qed.

Lemma run_lift_raise_bind {A B} (e : exn) (f : A → M B) :
  run (lift (Raise e) ≫= f) = (Raise e, []).
Proof. reflexivity. Qed.

Section LoopsInGeneral.
Context (w : World).

Lemma content_loop_outcome (items pc : list pyval) (n : Z) :
  n ≤ 20 →
  content_outcome w items pc n (run (pipe_content_loop w items pc n)).
Proof.
  revert pc n. induction items as [|item items IH]; intros pc n Hn.
  { cbn. rewrite app_nil_r. repeat split; lia. }
  cbn [pipe_content_loop].
  destruct (py_getitem item "type") as [ty|e] eqn:Hty;
    [|rewrite run_lift_raise_bind; exists 0%nat; repeat split; cbn; lia].
  apply py_getitem_ok in Hty as Hd. destruct Hd as (d & -> & Hd).
  rewrite run_lift_bind. unfold content_outcome.
  cbn [flat_map item_images spec_item_blocks]. rewrite Hd.
  destruct (py_eq_str ty "text") eqn:Htext.
  - apply py_eq_str_true in Htext as ->. cbn [py_eq_str String.eqb].
    replace (match d !! "image_url" with
             | Some image => if false then [image] else []
             | None => []
             end) with (@nil pyval) by (by destruct (d !! "image_url")).
    cbn [py_eq_str py_getitem]. cbn [app].
    destruct (d !! "text") as [text|];
      [|rewrite run_lift_raise_bind; exists 0%nat; repeat split; cbn; lia].
    rewrite run_lift_bind. specialize (IH (pc ++ [PDict {[ "text" := text ]}]) n Hn).
    unfold content_outcome in IH.
    destruct (run (pipe_content_loop w items _ n)) as [[[pc' n']|e] tr];
      [|done].
    destruct IH as (-> & IH). split; [|done]. by rewrite <- app_assoc.
  - destruct (py_eq_str ty "image_url") eqn:Himg.
    + destruct (Z.leb_spec 20 n) as [Hge|Hlt];
        [exists 0%nat; repeat split; cbn; lia|].
      cbn [py_getitem].
      destruct (d !! "image_url") as [image|];
        [|rewrite run_lift_raise_bind; exists 0%nat; repeat split; cbn; lia].
      rewrite run_lift_bind.
      rewrite run_bind
        by (auto using regular_process_image, regular_pipe_content_loop).
      cbn [app length].
      destruct (value_of (process_image w image)) as [block|e] eqn:Hv.
      * specialize (IH (pc ++ [block]) (n + 1) ltac:(lia)).
        unfold content_outcome, value_of, trace_of in *.
        destruct (run (pipe_content_loop w items _ (n + 1)))
          as [[[pc' n']|e] tr]; cbn [fst snd].
        -- destruct IH as (-> & -> & Hle & ->).
           rewrite <- app_assoc. repeat split; (done || lia).
        -- destruct IH as (k & Hk & Hlen & ->). exists (S k).
           repeat split; (done || lia).
      * exists 1%nat. repeat split; [lia|cbn; lia|].
        cbn. by rewrite app_nil_r.
    + replace (match d !! "image_url" with
               | Some image => if false then [image] else []
               | None => []
               end) with (@nil pyval) by (by destruct (d !! "image_url")).
      cbn [app]. apply IH, Hn.
Qed.

(** The end of one round of the outer loop: the role is read, the message is
    appended, and the loop goes on with the rest. *)
Lemma messages_tail_outcome (d : dict) (rest pm pc : list pyval) (n : Z) :
  n ≤ 20 →
  (∀ pm n, n ≤ 20 →
     messages_outcome w rest pm n (run (pipe_messages_loop w rest pm n))) →
  messages_outcome w rest
    (pm ++ [PDict {[ "role" := default PNone (d !! "role");
                     "content" := PList pc ]}]) n
    (run (role ← lift (py_getitem (PDict d) "role");
          pipe_messages_loop w rest
            (pm ++ [PDict {[ "role" := role; "content" := PList pc ]}]) n)).
Proof.
  intros Hn IH. cbn [py_getitem].
  destruct (d !! "role") as [r|].
  - rewrite run_lift_bind. by apply IH.
  - rewrite run_lift_raise_bind. exists 0%nat. repeat split; cbn; lia.
Qed.

(** One round of the outer loop on a dict, whatever it holds. *)
Lemma messages_round (d : dict) (rest pm : list pyval) (n : Z) :
  run (pipe_messages_loop w (PDict d :: rest) pm n) =
  run (p ← match d !! "content" with
           | Some (PList items) => pipe_content_loop w items [] n
           | _ => mret (spec_content w (d !! "content"), n)
           end;
       role ← lift (py_getitem (PDict d) "role");
       pipe_messages_loop w rest
         (pm ++ [PDict {[ "role" := role; "content" := PList p.1 ]}]) p.2).
Proof.
  cbn [pipe_messages_loop py_get]. unfold dict_get.
  rewrite lift_ok_bind. unfold run, mbind, M_bind.
  destruct (d !! "content") as [[]|]; cbn; try done.
  by destruct (pipe_content_loop w l [] n []) as [[[pc ic]|e] tr].
Qed.

Lemma messages_loop_outcome (messages pm : list pyval) (n : Z) :
  n ≤ 20 →
  messages_outcome w messages pm n (run (pipe_messages_loop w messages pm n)).
Proof.
  revert pm n. induction messages as [|m messages IH]; intros pm n Hn.
  { cbn. rewrite app_nil_r. repeat split; lia. }
  destruct m as [| | | | | | |d];
    try (cbn [pipe_messages_loop py_get]; rewrite run_lift_raise_bind;
         exists 0%nat; repeat split; cbn; lia).
  rewrite messages_round.
  unfold messages_outcome, image_items.
  cbn [flat_map message_images fmap list_fmap spec_message].
  fold (image_items messages).
  assert (∀ pc, messages_outcome w messages
            (pm ++ [PDict {[ "role" := default PNone (d !! "role");
                             "content" := PList pc ]}]) n
            (run (role ← lift (py_getitem (PDict d) "role");
                  pipe_messages_loop w messages
                    (pm ++ [PDict {[ "role" := role; "content" := PList pc ]}])
                    n)) →
          let (r0, tr) :=
            run (role ← lift (py_getitem (PDict d) "role");
                 pipe_messages_loop w messages
                   (pm ++ [PDict {[ "role" := role; "content" := PList pc ]}])
                   n) in
          match r0 with
          | Ok pm' =>
              pm' = pm ++ PDict {[ "role" := default PNone (d !! "role");
                                   "content" := PList pc ]}
                       :: (spec_message w <$> messages) ∧
              n + Z.of_nat (length ([] ++ image_items messages)) ≤ 20 ∧
              tr = image_traces w ([] ++ image_items messages)
          | Raise _ =>
              ∃ k, Z.of_nat k ≤ 20 - n ∧
                   (k ≤ length ([] ++ image_items messages))%nat ∧
                   tr = image_traces w (take k ([] ++ image_items messages))
          end) as Hflat.
  { intros pc Ht. unfold messages_outcome in Ht. cbn [app].
    destruct (run _) as [[pm'|e] tr]; [|done].
    destruct Ht as (-> & Ht). split; [by rewrite <- app_assoc|done]. }
  destruct (d !! "content") as [[| | | | | |items|]|] eqn:Hc;
    try (change (run (mret ?x ≫= ?f)) with (run (f x)); cbn [fst snd];
         apply Hflat, messages_tail_outcome; done).
  clear Hflat.
  pose proof (content_loop_outcome items [] n Hn) as Hin.
  unfold content_outcome in Hin.
  rewrite run_bind;
    [|by apply regular_pipe_content_loop
     |intros p; pose proof (regular_pipe_messages_loop w);
      repeat regular_step; done].
  unfold value_of, trace_of.
  destruct (run (pipe_content_loop w items [] n)) as [[[pc n']|e] tr];
    cbn [fst snd].
  - destruct Hin as (-> & -> & Hle & ->). cbn [app].
    pose proof (messages_tail_outcome d messages pm
                  (flat_map (spec_item_blocks w) items) _ Hle IH) as Ht.
    unfold messages_outcome, value_of, trace_of in *.
    destruct (run _) as [[pm'|e] tr]; cbn [fst snd].
    + destruct Ht as (-> & Ht & ->). rewrite <- app_assoc, length_app.
      repeat split; [lia|by rewrite image_traces_app].
    + destruct Ht as (k & Hk & Hlen & ->).
      exists (length (flat_map item_images items) + k)%nat.
      rewrite length_app, take_app_add, image_traces_app.
      repeat split; (done || lia).
  - destruct Hin as (k & Hk & Hlen & ->). exists k.
    rewrite length_app, take_app_le by lia. repeat split; (done || lia).
Qed.

(** Whatever the input, the collaborator calls of normalization are those
    of at most the first 20 images. *)
Lemma normalize_resolves_at_most_20 (messages : list pyval) :
  ∃ k, (k ≤ 20)%nat ∧
       trace_of (normalize w messages)
         = image_traces w (take k (image_items messages)).
Proof.
  pose proof (messages_loop_outcome messages [] 0 ltac:(lia)) as H.
  unfold messages_outcome, trace_of, normalize in *.
  destruct (run (pipe_messages_loop w messages [] 0)) as [[pm|e] tr];
    cbn [snd].
  - destruct H as (_ & Hle & ->). exists (length (image_items messages)).
    split; [lia|]. by rewrite firstn_all.
  - destruct H as (k & Hk & _ & ->). exists k. split; [lia|done].
Qed.

(** Normalization cannot return when there are more than 20 images. *)
Lemma normalize_fails_beyond_20 (messages : list pyval) :
  (20 < length (image_items messages))%nat →
  is_ok (value_of (normalize w messages)) = false.
Proof.
  intros Hlen.
  pose proof (messages_loop_outcome messages [] 0 ltac:(lia)) as H.
  unfold messages_outcome, value_of, normalize in *.
  destruct (run (pipe_messages_loop w messages [] 0)) as [[pm|e] tr];
    cbn [fst is_ok]; [|done].
  destruct H as (_ & Hle & _). lia.
Qed.

(** Whenever normalization returns, it returns what the design says. *)
Lemma normalize_returns_spec (messages outs : list pyval) :
  value_of (normalize w messages) = Ok outs →
  outs = spec_message w <$> messages.
Proof.
  pose proof (messages_loop_outcome messages [] 0 ltac:(lia)) as H.
  unfold messages_outcome, value_of, normalize in *.
  destruct (run (pipe_messages_loop w messages [] 0)) as [[pm|e] tr];
    cbn [fst]; [|done].
  destruct H as (-> & _). by intros [= <-].
Qed.

End LoopsInGeneral.

(** ** Dispatch: [process_image] *)

Section ProcessImage.
Context (w : World).

(** On the remote route the fetch is made and then, whatever was fetched,
    [img_stream.read()] is called on a [bytes] object. *)
Lemma process_image_remote (d : dict) (url : string) :
  d !! "url" = Some (PStr url) →
  startswith url "data:image" = false →
  run (process_image w (PDict d)) =
    (match requests_get w url with
     | Ok _ => Raise (AttributeError "'bytes' object has no attribute 'read'")
     | Raise e => Raise e
     end, [EvRequestsGet url]).
Proof.
  intros Hurl Hremote.
  unfold run, process_image, call, emit, lift, mbind, M_bind. cbn.
  rewrite Hurl. cbn. rewrite Hremote. cbn.
  by destruct (requests_get w url).
Qed.

(** What [process_image] returns, when it returns, is an image block. *)
Lemma process_image_block (image block : pyval) :
  value_of (process_image w image) = Ok block → is_image_block block.
Proof.
  unfold value_of, run, process_image, call, emit, lift, raise, mbind, M_bind,
    mret, M_ret.
  destruct (py_getitem image "url") as [url|]; cbn; [|done].
  destruct (str_receiver url "startswith") as [s|]; cbn; [|done].
  destruct (startswith s "data:image"); cbn.
  - destruct (str_contains "," s); cbn; [|done].
    destruct (list_index1 (split "," s)) as [b|]; cbn; [|done].
    destruct (b64decode w b) as [data|]; cbn; [|done].
    intros [= <-]. eexists _, data. split; [|done].
    destruct (endswith s ".png"); [by left|by right].
  - by destruct (requests_get w s).
Qed.

End ProcessImage.

(** C4, evaluated where it fails.  The reference is remote, the fetch
    succeeds and delivers the body, and [process_image] raises
    [AttributeError] instead of returning an image block: the remote route
    keeps the [bytes] of the response, and [bytes] has no [read]. *)
Theorem remote_image_raises :
  requests_get ex_healthy ex_remote_png = Ok png_bytes ∧
  run (process_image ex_healthy (PDict {[ "url" := PStr ex_remote_png ]})) =
    (Raise (AttributeError "'bytes' object has no attribute 'read'"),
     [EvRequestsGet ex_remote_png]).
Proof. split; by vm_compute. Qed.

(** ** Dispatch: the image cap and the shape of normalized messages *)

(** C7, as the code has it.  For well-formed messages with exactly 20 image
    items, all of which resolve, normalization succeeds, yields the
    normalized messages and has resolved every image, in order.  For every
    message list with 21 image items normalization fails, and the collaborator
    calls made are those of at most the first 20 images, so the 21st is
    neither fetched nor decoded; when the list is well formed and its first
    20 images resolve, the failure is the limit error, raised after exactly
    those 20 images were resolved. *)
Theorem image_cap_boundary (w : World) :
  (∀ messages,
     forallb wf_message messages = true →
     Forall (resolves w) (image_items messages) →
     length (image_items messages) = 20%nat →
     run (normalize w messages) =
       (Ok (spec_message w <$> messages),
        image_traces w (image_items messages))) ∧
  (∀ messages,
     length (image_items messages) = 21%nat →
     is_ok (value_of (normalize w messages)) = false ∧
     ∃ k, (k ≤ 20)%nat ∧
          trace_of (normalize w messages)
            = image_traces w (take k (image_items messages))) ∧
  (∀ messages,
     forallb wf_message messages = true →
     Forall (resolves w) (take 20 (image_items messages)) →
     length (image_items messages) = 21%nat →
     run (normalize w messages) =
       (Raise (ValueError image_limit_message),
        image_traces w (take 20 (image_items messages)))).
Proof.
  split; [|split].
  - intros messages Hwf Hres Hlen. unfold normalize.
    rewrite messages_loop_within by (done || lia). done.
  - intros messages Hlen. split.
    + apply normalize_fails_beyond_20. lia.
    + apply normalize_resolves_at_most_20.
  - intros messages Hwf Hres Hlen. unfold normalize.
    by rewrite messages_loop_exceeds by (done || lia).
Qed.

Lemma image_cap_boundary_witness :
  run (normalize ex_healthy ex_twenty_images) =
    (Ok (spec_message ex_healthy <$> ex_twenty_images),
     replicate 20 (EvB64Decode "iVBORw==")) ∧
  (is_ok (value_of (normalize ex_healthy ex_twentyone_broken)) = false ∧
   ∃ k, (k ≤ 20)%nat ∧
        trace_of (normalize ex_healthy ex_twentyone_broken)
          = image_traces ex_healthy (take k (image_items ex_twentyone_broken))) ∧
  run (normalize ex_healthy ex_twentyone_images) =
    (Raise (ValueError image_limit_message),
     replicate 20 (EvB64Decode "iVBORw==")).
Proof.
  destruct (image_cap_boundary ex_healthy) as (H20 & H21 & H21q).
  split; [|split].
  - apply (H20 ex_twenty_images).
    + by vm_compute.
    + repeat constructor.
    + by vm_compute.
  - apply (H21 ex_twentyone_broken). by vm_compute.
  - apply (H21q ex_twentyone_images).
    + by vm_compute.
    + repeat constructor.
    + by vm_compute.
Defined.

(** C7, as the spec states it, fails: a list with exactly 20 image items
    does not normalize when one of the images cannot be resolved.  Here the
    first reference is an inline one without the separating comma. *)
Lemma twenty_images_may_fail :
  length (image_items ex_twenty_broken) = 20%nat ∧
  forallb wf_message ex_twenty_broken = true ∧
  is_ok (value_of (normalize ex_healthy ex_twenty_broken)) = false.
Proof. repeat split; by vm_compute. Qed.

Lemma flat_text_messages_plain (messages : list pyval) :
  Forall flat_text_message messages →
  forallb wf_message messages = true ∧ image_items messages = [].
Proof.
  induction 1 as [|m messages (d & r & c & -> & Hr & Hc) _ [IHwf IHimg]];
    [done|].
  unfold image_items in *. cbn [forallb flat_map wf_message message_images].
  rewrite Hr, Hc, IHwf, IHimg. split; [|done].
  by rewrite bool_decide_eq_true_2 by eauto.
Qed.

Lemma flat_text_messages_normalized (w : World) (messages : list pyval) :
  Forall flat_text_message messages →
  Forall2 flat_normalized messages (spec_message w <$> messages).
Proof.
  induction 1 as [|m messages (d & r & c & -> & Hr & Hc) _ IH]; cbn; [done|].
  constructor; [|done]. exists d, r, c. by rewrite Hr, Hc.
Qed.

(** ** Dispatch: what is sent to the transport *)

Section Quiet.
Context {A B : Type}.

Lemma quiet_ret (a : A) : quiet (mret a : M A).
Proof. done. Qed.

Lemma quiet_lift (r : result A) : quiet (lift r).
Proof. done. Qed.

Lemma quiet_raise (e : exn) : quiet (@raise A e).
Proof. done. Qed.

Lemma quiet_bind (m : M A) (f : A → M B) :
  regular m → (∀ a, regular (f a)) →
  quiet m → (∀ a, quiet (f a)) → quiet (m ≫= f).
Proof.
  intros Hm Hf [Qb Qs] Qf. unfold quiet. rewrite trace_of_bind by done.
  unfold sent_blocking, sent_streaming in *. rewrite !omap_app, Qb, Qs.
  destruct (value_of m) as [a|]; [|done]. by destruct (Qf a).
Qed.

End Quiet.

Ltac quiet_step :=
  first
    [ apply quiet_ret | apply quiet_lift | apply quiet_raise
    | apply quiet_bind; [| |  |intros ?]
    | match goal with
      | |- quiet (if ?b then _ else _) => destruct b
      | |- quiet (match ?x with _ => _ end) => destruct x
      | |- regular _ => repeat regular_step
      | |- ∀ _, regular _ => intros ?
      end ].

Section QuietFacts.
Context (w : World).

Lemma quiet_process_image (image : pyval) : quiet (process_image w image).
Proof.
  unfold quiet, trace_of, run, process_image, call, emit, lift, raise,
    mbind, M_bind, mret, M_ret.
  destruct (py_getitem image "url") as [url|]; cbn; [|done].
  destruct (str_receiver url "startswith") as [s|]; cbn; [|done].
  destruct (startswith s "data:image"); cbn.
  - destruct (str_contains "," s); cbn; [|done].
    destruct (list_index1 (split "," s)) as [b|]; cbn; [|done].
    by destruct (b64decode w b).
  - by destruct (requests_get w s).
Qed.

Lemma quiet_pipe_content_loop (items pc : list pyval) (n : Z) :
  quiet (pipe_content_loop w items pc n).
Proof.
  revert pc n. induction items as [|item items IH]; intros pc n; cbn.
  - apply quiet_ret.
  - pose proof regular_process_image w.
    pose proof regular_pipe_content_loop w.
    pose proof quiet_process_image.
    repeat (quiet_step || apply IH || done).
Qed.

Lemma quiet_pipe_messages_loop (messages pm : list pyval) (n : Z) :
  quiet (pipe_messages_loop w messages pm n).
Proof.
  revert pm n. induction messages as [|m messages IH]; intros pm n; cbn.
  - apply quiet_ret.
  - pose proof regular_pipe_content_loop w.
    pose proof regular_pipe_messages_loop w.
    pose proof quiet_pipe_content_loop.
    repeat (quiet_step || apply IH || done).
Qed.

Lemma quiet_normalize (messages : list pyval) : quiet (normalize w messages).
Proof. apply quiet_pipe_messages_loop. Qed.

End QuietFacts.

Section PipeFacts.
Context (w : World).

Lemma trace_of_get_completion (model_id : string) (payload : dict)
    (region : string) :
  trace_of (get_completion w model_id payload region) =
    [EvConverse (get_runtime_client region) payload].
Proof.
  unfold trace_of, run, get_completion, call, emit, lift, mbind, M_bind. cbn.
  by destruct (converse w (get_runtime_client region) payload).
Qed.

(** [pipe], path by path. *)
Lemma run_pipe (self : Pipeline) (user_message model_id : string)
    (messages : list pyval) (body : dict) :
  run (pipe w self user_message model_id messages body) =
    match pop_system_message w messages with
    | Raise e => (Raise e, [EvPrint ("pipe:" +:+ module_name w)])
    | Ok (system_message, messages') =>
        match json_dumps w messages' with
        | Raise e => (Raise e, [EvPrint ("pipe:" +:+ module_name w)])
        | Ok dumped =>
            let pre :=
              [EvPrint ("pipe:" +:+ module_name w);
               EvLogInfo ("pop_system_message: " +:+ dumped)]
              ++ trace_of (normalize w messages') in
            match value_of (normalize w messages') with
            | Raise e => (Ok (Returned (PStr ("Error: " +:+ str_exn e))), pre)
            | Ok processed_messages =>
                let payload :=
                  build_payload model_id processed_messages
                                system_message body in
                let region := get_model_region self model_id in
                if truthy (dict_get body "stream" (PBool false)) then
                  (Ok (ReturnedGenerator
                         (stream_response model_id payload region)), pre)
                else
                  (Ok (Returned
                         match value_of (get_completion w model_id payload
                                                        region) with
                         | Ok text => text
                         | Raise e => PStr ("Error: " +:+ str_exn e)
                         end),
                   pre ++ [EvConverse (get_runtime_client region) payload])
            end
        end
    end.
Proof.
  unfold run, pipe, try_except, emit, mbind, M_bind. unfold lift at 1 2. cbn.
  destruct (pop_system_message w messages) as [[sys messages']|]; [|done].
  destruct (json_dumps w messages') as [dumped|]; [|done].
  rewrite (regular_normalize w messages').
  destruct (value_of (normalize w messages')) as [pm|]; [|done].
  destruct (truthy (dict_get body "stream" (PBool false))); [done|].
  rewrite (regular_get_completion w), trace_of_get_completion.
  by destruct (value_of (get_completion w _ _ _)).
Qed.

End PipeFacts.

Section Payloads.
Context (w : World).

Lemma build_payload_ignores_stream (model_id : string) (pm : list pyval)
    (sys : pyval) (body : dict) (v : pyval) :
  build_payload model_id pm sys (<["stream" := v]> body)
    = build_payload model_id pm sys body.
Proof.
  unfold build_payload, dict_get. by rewrite !lookup_insert_ne by done.
Qed.

Lemma stream_flag (body : dict) (b : bool) :
  truthy (dict_get (<["stream" := PBool b]> body) "stream" (PBool false)) = b.
Proof. unfold dict_get. by rewrite lookup_insert_eq. Qed.

(** Draining the generator sends exactly one request, to the client of the
    region, with the payload stripped of the two keys. *)
Lemma drain_trace (model_id region : string) (pm : list pyval)
    (sys : pyval) (body : dict) (tr : list Event) :
  (drain w (stream_response model_id
              (build_payload model_id pm sys body) region) tr).2 =
    tr ++ [EvConverseStream (get_runtime_client region)
             (delete "additionalModelRequestFields"
                (delete "system" (build_payload model_id pm sys body)))].
Proof.
  unfold drain, stream_response, call, emit, lift, mbind, M_bind.
  cbn [gen_payload gen_region gen_model_id].
  rewrite (bool_decide_eq_true_2 (is_Some (build_payload _ _ _ _ !! "system")))
    by (by eexists).
  rewrite (bool_decide_eq_true_2
             (is_Some (delete "system" (build_payload _ _ _ _)
                         !! "additionalModelRequestFields")))
    by (by eexists).
  destruct (converse_stream w _ _) as [resp|]; cbn; [|done].
  by destruct (field "stream" (stream resp)).
Qed.

End Payloads.

(** C3.  For every world, catalog, model id, message list and options map,
    compare the call with [stream] false and the call with [stream] true
    (the generator drained).  If preparation stops before the payload is
    built, neither call sends anything.  Otherwise each sends exactly one
    payload, to the same client; both payloads have the same [modelId],
    [messages] and [inferenceConfig] (temperature); the system prompt and
    the extended sampling fields [top_k], [top_p] are present in the blocking
    payload and absent from the streaming payload. *)
Theorem streaming_payload_is_reduced (w : World) (self : Pipeline)
    (user_message model_id : string) (messages : list pyval) (body : dict) :
  let blocking :=
    (dispatch w self user_message model_id messages
              (<["stream" := PBool false]> body)).2 in
  let streaming :=
    (dispatch w self user_message model_id messages
              (<["stream" := PBool true]> body)).2 in
  match prepared w messages with
  | Raise _ => sent_blocking blocking = [] ∧ sent_streaming streaming = []
  | Ok (system_message, processed_messages) =>
      ∃ client pb ps,
        sent_blocking blocking = [(client, pb)] ∧
        sent_streaming streaming = [(client, ps)] ∧
        pb !! "modelId" = Some (PStr model_id) ∧
        ps !! "modelId" = Some (PStr model_id) ∧
        pb !! "messages" = Some (PList processed_messages) ∧
        ps !! "messages" = Some (PList processed_messages) ∧
        pb !! "inferenceConfig" =
          Some (PDict {[ "temperature" :=
                           dict_get body "temperature" (PFloat 0.5) ]}) ∧
        ps !! "inferenceConfig" = pb !! "inferenceConfig" ∧
        pb !! "system" =
          Some (PList [PDict {[ "text" :=
                  if truthy system_message then system_message
                  else PStr default_system_prompt ]}]) ∧
        ps !! "system" = None ∧
        pb !! "additionalModelRequestFields" =
          Some (PDict {[ "top_k" := dict_get body "top_k" (PInt 200);
                         "top_p" := dict_get body "top_p" (PFloat 0.9) ]}) ∧
        ps !! "additionalModelRequestFields" = None
  end.
Proof.
  cbn zeta. unfold dispatch, prepared. rewrite !run_pipe.
  destruct (pop_system_message w messages) as [[sys messages']|]; cbn;
    [|done].
  destruct (json_dumps w messages') as [dumped|]; cbn; [|done].
  destruct (quiet_normalize w messages') as [Qb Qs].
  destruct (value_of (normalize w messages')) as [pm|] eqn:Hpm; cbn.
  - rewrite !stream_flag, !build_payload_ignores_stream. cbn [snd].
    match goal with |- context [drain w ?g ?tr] =>
      pose proof (drain_trace w model_id (get_model_region self model_id)
                    pm sys body tr) as Hd;
      destruct (drain w g tr) as [[ys r] tr']
    end.
    cbn [snd] in Hd. subst tr'.
    eexists _, _, _. split; [|split; [destruct r; cbn [snd]|]].
    + unfold sent_blocking in *. cbn [omap list_omap].
      rewrite omap_app, Qb. done.
    + unfold sent_streaming in *. cbn [omap list_omap app].
      rewrite omap_app, Qs. done.
    + unfold sent_streaming in *. cbn [omap list_omap app].
      rewrite omap_app, Qs. done.
    + repeat split.
  - unfold sent_blocking, sent_streaming in *. cbn [snd omap list_omap app].
    by rewrite Qb, Qs.
Qed.

Example prepared_chat :
  prepared ex_healthy ex_chat = Ok (PNone, spec_message ex_healthy <$> ex_chat).
Proof. by vm_compute. Qed.

(** ** Dispatch: where failures surface *)

(** C2, evaluated where it fails.  The transport refuses the request.  With
    [stream] false the failure is caught in [pipe] and comes back as an
    "Error:" string.  With [stream] true [pipe] returns a generator without
    having run any of [stream_response]; the request is made when the host
    iterates, outside the [try] of [pipe], and the exception reaches the
    host.  The same holds when the stream breaks after its first delta. *)
Theorem streaming_failure_reaches_host :
  (dispatch ex_transport_down ex_pipeline "hello" "anthropic.claude-3"
            ex_chat {[ "stream" := PBool false ]}).1
    = Completion (PStr "Error: An error occurred (ThrottlingException)") ∧
  (∃ g, run (pipe ex_transport_down ex_pipeline "hello" "anthropic.claude-3"
                  ex_chat {[ "stream" := PBool true ]})
        = (Ok (ReturnedGenerator g),
           [EvPrint "pipe:bedrock_models";
            EvLogInfo "pop_system_message: [...]"])) ∧
  (dispatch ex_transport_down ex_pipeline "hello" "anthropic.claude-3"
            ex_chat {[ "stream" := PBool true ]}).1
    = Fault [] ex_throttled ∧
  (dispatch ex_stream_breaks ex_pipeline "hello" "anthropic.claude-3"
            ex_chat {[ "stream" := PBool true ]}).1
    = Fault [PStr "Hel"] ex_connection_reset.
Proof.
  split; [by vm_compute|]. split; [eexists; by vm_compute|].
  split; by vm_compute.
Qed.

(** * Further properties of the catalog *)

Lemma east_comprehension_regions (es : list ModelSummary) (E : list ModelEntry) :
  east_comprehension es = Ok E → Forall (λ m, m_region m = "us-east-1") E.
Proof.
  revert E. induction es as [|model es IH]; intros E; cbn.
  - by intros [= <-].
  - destruct (lifecycle_active model); [|by auto].
    destruct (modelId model); cbn; [|done].
    destruct (modelName model); cbn; [|done].
    destruct (east_comprehension es) as [E'|]; cbn; [|done].
    intros [= <-]. constructor; [done|by apply IH].
Qed.

Lemma west_comprehension_regions (ids : gset string) (ws : list ModelSummary)
    (W : list ModelEntry) :
  west_comprehension ids ws = Ok W → Forall (λ m, m_region m = "us-west-2") W.
Proof.
  revert W. induction ws as [|model ws IH]; intros W; cbn.
  - by intros [= <-].
  - destruct (lifecycle_active model); [|by auto].
    destruct (modelId model); cbn; [|done].
    case_bool_decide; [|by auto].
    destruct (modelName model); cbn; [|done].
    destruct (west_comprehension ids ws) as [W'|]; cbn; [|done].
    intros [= <-]. constructor; [done|by apply IH].
Qed.

Section CatalogRuns.
Context (w : World).

(** Each of the three methods makes its one call first, prints at most one
    line after it, and returns a list. *)
Lemma get_east_models_run :
  ∃ E pr, run (get_east_models w)
            = (Ok E, EvListFoundationModels east_bedrock :: pr) ∧
          listing_calls pr = [] ∧
          Forall (λ m, m_region m = "us-east-1") E.
Proof.
  unfold run, get_east_models, try_except, call, emit, lift, mbind, M_bind,
    mret, M_ret. cbn.
  destruct (list_foundation_models w east_bedrock) as [response|e]; cbn;
    [|eexists _, _; split; [done|split; [done|by repeat constructor]]].
  destruct (field "modelSummaries" (modelSummaries response)) as [es|]; cbn;
    [|eexists _, _; split; [done|split; [done|by repeat constructor]]].
  destruct (east_comprehension es) as [E|] eqn:HE; cbn;
    [|eexists _, _; split; [done|split; [done|by repeat constructor]]].
  eexists _, _. split; [done|]. split; [done|].
  by apply (east_comprehension_regions es).
Qed.

Lemma get_cross_region_profiles_run (ids : gset string) :
  ∃ pr, run (get_cross_region_profiles w ids)
          = (Ok [], EvListInferenceProfiles east_bedrock :: pr) ∧
        listing_calls pr = [].
Proof.
  unfold run, get_cross_region_profiles, try_except, call, emit, lift,
    mbind, M_bind, mret, M_ret. cbn.
  destruct (list_inference_profiles w east_bedrock) as [response|e]; cbn;
    [|by eexists].
  destruct (cross_comprehension_builds_nothing ids
              (default [] (profiles response))) as [->|[e ->]]; cbn;
    by eexists.
Qed.

Lemma get_west_models_run (ids : gset string) :
  ∃ W pr, run (get_west_models w ids)
            = (Ok W, EvListFoundationModels west_bedrock :: pr) ∧
          listing_calls pr = [] ∧
          Forall (λ m, m_region m = "us-west-2") W.
Proof.
  unfold run, get_west_models, try_except, call, emit, lift, mbind, M_bind,
    mret, M_ret. cbn.
  destruct (list_foundation_models w west_bedrock) as [response|e]; cbn;
    [|eexists _, _; split; [done|split; [done|by repeat constructor]]].
  destruct (field "modelSummaries" (modelSummaries response)) as [ws|]; cbn;
    [|eexists _, _; split; [done|split; [done|by repeat constructor]]].
  destruct (west_comprehension ids ws) as [W|] eqn:HW; cbn;
    [|eexists _, _; split; [done|split; [done|by repeat constructor]]].
  eexists _, _. split; [done|]. split; [done|].
  by apply (west_comprehension_regions ids ws).
Qed.

(** [get_models], whatever the sources answer. *)
Lemma get_models_run :
  ∃ E W pe pc pw,
    run (get_models w) =
      (Ok (E ++ W),
       EvListFoundationModels east_bedrock :: pe ++
       EvListInferenceProfiles east_bedrock :: pc ++
       EvListFoundationModels west_bedrock :: pw) ∧
    listing_calls pe = [] ∧ listing_calls pc = [] ∧ listing_calls pw = [] ∧
    Forall (λ m, m_region m = "us-east-1") E ∧
    Forall (λ m, m_region m = "us-west-2") W.
Proof.
  destruct get_east_models_run as (E & pe & HE & Hpe & HrE).
  set (ids := list_to_set (m_id <$> E) : gset string).
  destruct (get_cross_region_profiles_run ids) as (pc & HC & Hpc).
  destruct (get_west_models_run ids) as (W & pw & HW & Hpw & HrW).
  exists E, W, pe, pc, pw. split; [|done].
  pose proof (regular_get_east_models w).
  pose proof (regular_get_cross_region_profiles w).
  pose proof (regular_get_west_models w).
  unfold get_models. rewrite run_bind by regular.
  unfold value_of, trace_of. rewrite HE. cbn [fst snd]. fold ids.
  rewrite run_bind by regular.
  unfold value_of, trace_of. rewrite HC. cbn [fst snd].
  rewrite run_bind by regular.
  unfold value_of, trace_of. rewrite HW. cbn [fst snd].
  rewrite run_ret. cbn [fst snd app]. by rewrite app_nil_r.
Qed.

End CatalogRuns.

(** X1.  Whatever the three sources answer or raise, [get_models] returns a
    catalog and never raises, and it has called the three sources exactly
    once each, in the order us-east-1 models, inference profiles, us-west-2
    models. *)
Theorem get_models_never_raises (w : World) :
  is_ok (value_of (get_models w)) = true ∧
  listing_calls (trace_of (get_models w)) =
    [ EvListFoundationModels east_bedrock;
      EvListInferenceProfiles east_bedrock;
      EvListFoundationModels west_bedrock ].
Proof.
  destruct (get_models_run w) as (E & W & pe & pc & pw & Hrun & He & Hc & Hw & _).
  unfold value_of, trace_of. rewrite Hrun. split; [done|].
  unfold listing_calls in *. cbn [snd List.filter is_listing_call].
  rewrite List.filter_app. cbn [List.filter is_listing_call].
  rewrite List.filter_app. cbn [List.filter is_listing_call].
  by rewrite He, Hc, Hw.
Qed.

(** X2.  In every catalog that [get_models] returns, each entry is tagged
    us-east-1 or us-west-2, and all the us-east-1 entries come before all
    the us-west-2 entries; so every entry's region has a runtime client. *)
Theorem get_models_regions (w : World) (cat : list ModelEntry) :
  value_of (get_models w) = Ok cat →
  ∃ E W, cat = E ++ W ∧
         Forall (λ m, m_region m = "us-east-1" ∧
                      get_runtime_client (m_region m) = east_bedrock_runtime) E ∧
         Forall (λ m, m_region m = "us-west-2" ∧
                      get_runtime_client (m_region m) = west_bedrock_runtime) W.
Proof.
  destruct (get_models_run w) as (E & W & pe & pc & pw & Hrun & _ & _ & _ & HE & HW).
  unfold value_of. rewrite Hrun. cbn. intros [= <-]. exists E, W.
  split; [done|]. split.
  - eapply Forall_impl; [exact HE|]. intros m Hm. by rewrite Hm.
  - eapply Forall_impl; [exact HW|]. intros m Hm. by rewrite Hm.
Qed.

Lemma get_models_regions_witness :
  ∃ E W, [east_sentinel; west_sentinel] = E ++ W ∧
         Forall (λ m, m_region m = "us-east-1" ∧
                      get_runtime_client (m_region m) = east_bedrock_runtime) E ∧
         Forall (λ m, m_region m = "us-west-2" ∧
                      get_runtime_client (m_region m) = west_bedrock_runtime) W.
Proof. apply (get_models_regions ex_both_down). by vm_compute. Defined.

Lemma east_comprehension_exact (es : list ModelSummary) :
  Forall active_complete es →
  ∃ E, east_comprehension es = Ok E ∧
       id_region <$> E = (λ i, (i, "us-east-1")) <$> active_ids es.
Proof.
  induction 1 as [|model es Hmodel _ (E & HE & Hids)]; [by exists []|].
  unfold active_ids. cbn [east_comprehension omap list_omap].
  fold (active_ids es). unfold active_complete in Hmodel.
  destruct (lifecycle_active model); [|by exists E].
  destruct (Hmodel eq_refl) as [[i Hi] [n Hn]].
  rewrite Hi, Hn. cbn. rewrite HE. cbn. eexists. split; [done|].
  by rewrite fmap_cons, Hids.
Qed.

Lemma west_comprehension_exact (ids : gset string) (ws : list ModelSummary) :
  Forall active_complete ws →
  ∃ W, west_comprehension ids ws = Ok W ∧
       id_region <$> W =
         (λ i, (i, "us-west-2")) <$> filter (λ i, i ∉ ids) (active_ids ws).
Proof.
  induction 1 as [|model ws Hmodel _ (W & HW & Hids)]; [by exists []|].
  unfold active_ids. cbn [west_comprehension omap list_omap].
  fold (active_ids ws). unfold active_complete in Hmodel.
  destruct (lifecycle_active model); [|by exists W].
  destruct (Hmodel eq_refl) as [[i Hi] [n Hn]].
  rewrite Hi, Hn. cbn.
  case_bool_decide as Hin.
  - rewrite decide_True by done. rewrite HW. cbn. eexists. split; [done|].
    by rewrite !fmap_cons, Hids.
  - case_decide; [done|]. by exists W.
Qed.

Lemma id_region_ids (l : list ModelEntry) (ids : list string) (r : string) :
  id_region <$> l = (λ i, (i, r)) <$> ids → m_id <$> l = ids.
Proof.
  revert ids. induction l as [|m l IH]; intros [|i ids]; try done.
  rewrite !fmap_cons. intros [= -> _ H]. f_equal. by apply IH.
Qed.

(** X3.  When both region listings answer and every ACTIVE summary carries
    its id and name, the catalog lists, with their regions, exactly the
    ACTIVE us-east-1 ids in the listing's order, followed by the ACTIVE
    us-west-2 ids that are not among them, in the listing's order; summaries
    that are not ACTIVE contribute nothing, even when they lack keys. *)
Theorem get_models_ids_in_order (w : World) (es ws : list ModelSummary) :
  list_foundation_models w east_bedrock = Ok {| modelSummaries := Some es |} →
  list_foundation_models w west_bedrock = Ok {| modelSummaries := Some ws |} →
  Forall active_complete es → Forall active_complete ws →
  ∃ cat, value_of (get_models w) = Ok cat ∧
    id_region <$> cat =
      ((λ i, (i, "us-east-1")) <$> active_ids es) ++
      ((λ i, (i, "us-west-2"))
         <$> filter (λ i, i ∉ active_ids es) (active_ids ws)).
Proof.
  intros HwE HwW Hes Hws.
  destruct (east_comprehension_exact es Hes) as (E & HE & HidE).
  pose proof (id_region_ids _ _ _ HidE) as HE_ids.
  destruct (west_comprehension_exact (list_to_set (m_id <$> E)) ws Hws)
    as (W & HW & HidW).
  exists (E ++ W). split.
  - apply get_models_groups.
    + unfold value_of, run, get_east_models, try_except,
        call, emit, lift, mbind, M_bind, mret, M_ret. cbn.
      rewrite HwE. cbn. by rewrite HE.
    + unfold value_of, run, get_west_models, try_except,
        call, emit, lift, mbind, M_bind, mret, M_ret. cbn.
      rewrite HwW. cbn. by rewrite HW.
  - rewrite fmap_app, HidE, HidW. do 2 f_equal.
    apply list_filter_iff. intros i. by rewrite elem_of_list_to_set, HE_ids.
Qed.

Lemma get_models_ids_in_order_witness :
  ∃ cat, value_of (get_models ex_ragged) = Ok cat ∧
    id_region <$> cat =
      [ ("anthropic.claude-3", "us-east-1"); ("amazon.titan-text", "us-east-1");
        ("amazon.nova-pro", "us-west-2"); ("meta.llama3", "us-west-2") ].
Proof.
  destruct (get_models_ids_in_order ex_ragged _ _ eq_refl eq_refl)
    as (cat & Hcat & Hids).
  - repeat constructor; (done || (intros _; split; by eexists)).
  - repeat constructor; (done || (intros _; split; by eexists)).
  - exists cat. split; [done|]. rewrite Hids. by vm_compute.
Defined.

Lemma east_comprehension_poisoned (es : list ModelSummary) :
  Exists active_incomplete es → ∃ e, east_comprehension es = Raise e.
Proof.
  induction 1 as [model es [Hact Hmiss]|model es _ [e IH]];
    cbn [east_comprehension].
  - rewrite Hact. destruct Hmiss as [->| ->]; cbn; [by eauto|].
    destruct (modelId model); cbn; by eauto.
  - destruct (lifecycle_active model); [|by eauto].
    destruct (modelId model); cbn; [|by eauto].
    destruct (modelName model); cbn; [|by eauto].
    rewrite IH. cbn. by eauto.
Qed.

(** X4.  One ACTIVE summary without its id or its name spoils the whole
    us-east-1 listing: the us-east-1 group is the failure sentinel alone, so
    the catalog holds no us-east-1 model at all, however many well-formed
    summaries the listing had. *)
Theorem incomplete_summary_spoils_listing (w : World) (es : list ModelSummary) :
  list_foundation_models w east_bedrock = Ok {| modelSummaries := Some es |} →
  Exists active_incomplete es →
  value_of (get_east_models w) = Ok [east_sentinel] ∧
  ∃ W, value_of (get_models w) = Ok (east_sentinel :: W) ∧
       Forall (λ m, m_region m = "us-west-2") W.
Proof.
  intros Hw Hbad. destruct (east_comprehension_poisoned es Hbad) as [e He].
  assert (value_of (get_east_models w) = Ok [east_sentinel]) as HE.
  { unfold value_of, run, get_east_models, try_except,
      call, emit, lift, mbind, M_bind, mret, M_ret. cbn.
    rewrite Hw. cbn. by rewrite He. }
  split; [done|].
  destruct (get_west_models_run w (list_to_set (m_id <$> [east_sentinel])))
    as (W & pw & HW & _ & HrW).
  exists W. split; [|done].
  apply (get_models_groups w [east_sentinel] W); [done|].
  unfold value_of. by rewrite HW.
Qed.

Lemma incomplete_summary_spoils_listing_witness :
  value_of (get_east_models ex_nameless) = Ok [east_sentinel] ∧
  ∃ W, value_of (get_models ex_nameless) = Ok (east_sentinel :: W) ∧
       Forall (λ m, m_region m = "us-west-2") W.
Proof.
  apply (incomplete_summary_spoils_listing ex_nameless _ eq_refl).
  apply Exists_cons_tl, Exists_cons_hd. split; [done|by right].
Defined.

(** ** Refresh, then route *)

Lemma init_pipelines (w : World) (cat : list ModelEntry) :
  value_of (get_models w) = Ok cat →
  value_of (init w) =
    Ok {| type := "manifold"; name := "Bedrock: "; pipelines := cat |}.
Proof.
  intros Hcat. unfold init.
  rewrite value_of_bind by auto using regular_get_models, regular_ret.
  by rewrite Hcat.
Qed.

Lemma fst_tagged (l : list string) (r : string) :
  ((λ i, (i, r)) <$> l).*1 = l.
Proof. induction l as [|i l IH]; [done|]. cbn. by rewrite IH. Qed.

Lemma get_model_region_in_pairs (ps : list ModelEntry)
    (before after : list (string * string)) (i r : string) :
  id_region <$> ps = before ++ (i, r) :: after →
  i ∉ before.*1 →
  get_model_region_in ps i = r.
Proof.
  revert before. induction ps as [|m ps IH]; intros before.
  - by destruct before.
  - rewrite fmap_cons. destruct before as [|[j s] before]; cbn.
    + intros [= Hi Hr _] _. by rewrite Hi, String.eqb_refl.
    + intros [= Hj _ Hrest] Hnotin. rewrite Hj.
      destruct (String.eqb_spec j i) as [->|_].
      * destruct Hnotin. by left.
      * apply (IH before); [done|]. intros Hin. apply Hnotin. by right.
Qed.

Lemma get_model_region_in_none (ps : list ModelEntry) (i : string) :
  i ∉ m_id <$> ps → get_model_region_in ps i = "us-east-1".
Proof.
  intros Hnotin. apply get_model_region_in_absent. intros m Hm <-.
  apply Hnotin, list_elem_of_fmap. eauto.
Qed.

(** X5.  Refresh, then look up.  After [__init__] on healthy listings, an id
    that is ACTIVE in the us-east-1 listing routes to us-east-1 (also when
    us-west-2 lists it too); an id that is ACTIVE only in the us-west-2
    listing routes to us-west-2; any other id routes to us-east-1. *)
Theorem init_then_get_model_region (w : World) (es ws : list ModelSummary) :
  list_foundation_models w east_bedrock = Ok {| modelSummaries := Some es |} →
  list_foundation_models w west_bedrock = Ok {| modelSummaries := Some ws |} →
  Forall active_complete es → Forall active_complete ws →
  ∃ self, value_of (init w) = Ok self ∧
    ∀ i,
      (i ∈ active_ids es → get_model_region self i = "us-east-1") ∧
      (i ∉ active_ids es → i ∈ active_ids ws →
         get_model_region self i = "us-west-2") ∧
      (i ∉ active_ids es → i ∉ active_ids ws →
         get_model_region self i = "us-east-1").
Proof.
  intros HwE HwW Hes Hws.
  destruct (get_models_ids_in_order w es ws HwE HwW Hes Hws)
    as (cat & Hcat & Hids).
  eexists. split; [by apply init_pipelines|].
  intros i. unfold get_model_region. cbn [pipelines]. split; [|split].
  - intros [before [after Hsplit]]%list_elem_of_split_l.
    apply (get_model_region_in_pairs cat
             ((λ i, (i, "us-east-1")) <$> before)
             (((λ i, (i, "us-east-1")) <$> after) ++
              ((λ i, (i, "us-west-2"))
                 <$> filter (λ i, i ∉ active_ids es) (active_ids ws)))).
    + rewrite Hids. destruct Hsplit as [-> _].
      by rewrite fmap_app, fmap_cons, <- app_assoc.
    + destruct Hsplit as [_ Hfirst]. by rewrite fst_tagged.
  - intros HnE HW.
    assert (i ∈ filter (λ i, i ∉ active_ids es) (active_ids ws)) as Hin
      by (by apply list_elem_of_filter).
    apply list_elem_of_split_l in Hin as [before [after [Hsplit Hfirst]]].
    apply (get_model_region_in_pairs cat
             (((λ i, (i, "us-east-1")) <$> active_ids es) ++
              ((λ i, (i, "us-west-2")) <$> before))
             ((λ i, (i, "us-west-2")) <$> after)).
    + by rewrite Hids, Hsplit, fmap_app, fmap_cons, <- app_assoc.
    + rewrite fmap_app, !fst_tagged, elem_of_app. by intros [?|?].
  - intros HnE HnW. apply get_model_region_in_none.
    assert (m_id <$> cat = (id_region <$> cat).*1) as ->.
    { by rewrite <- list_fmap_compose. }
    rewrite Hids, fmap_app, !fst_tagged, elem_of_app, list_elem_of_filter.
    by intros [?|[_ ?]].
Qed.

Lemma init_then_get_model_region_witness :
  ∃ self, value_of (init ex_ragged) = Ok self ∧
    get_model_region self "anthropic.claude-3" = "us-east-1" ∧
    get_model_region self "meta.llama3" = "us-west-2" ∧
    get_model_region self "amazon.no-lifecycle" = "us-east-1".
Proof.
  destruct (init_then_get_model_region ex_ragged _ _ eq_refl eq_refl)
    as (self & Hself & Hroute).
  - repeat constructor; (done || (intros _; split; by eexists)).
  - repeat constructor; (done || (intros _; split; by eexists)).
  - exists self. split; [done|]. split; [|split].
    + destruct (Hroute "anthropic.claude-3") as (H & _ & _).
      apply H. by apply (bool_decide_unpack _).
    + destruct (Hroute "meta.llama3") as (_ & H & _).
      apply H; by apply (bool_decide_unpack _).
    + destruct (Hroute "amazon.no-lifecycle") as (_ & _ & H).
      apply H; by apply (bool_decide_unpack _).
Defined.

(** X6.  When both region listings raise, the catalog that [__init__]
    publishes is the two sentinels, and every model id whatever is routed to
    the us-east-1 runtime client. *)
Theorem both_listings_down_routes_east (w : World) (e1 e2 : exn) :
  list_foundation_models w east_bedrock = Raise e1 →
  list_foundation_models w west_bedrock = Raise e2 →
  ∃ self, value_of (init w) = Ok self ∧
    pipelines self = [east_sentinel; west_sentinel] ∧
    ∀ model_id,
      get_runtime_client (get_model_region self model_id)
        = east_bedrock_runtime.
Proof.
  intros HE HW. eexists. split.
  - apply init_pipelines.
    apply (get_models_groups w [east_sentinel] [west_sentinel]).
    + unfold value_of, run, get_east_models, try_except,
        call, emit, lift, mbind, M_bind, mret, M_ret. cbn. by rewrite HE.
    + unfold value_of, run, get_west_models, try_except,
        call, emit, lift, mbind, M_bind, mret, M_ret. cbn. by rewrite HW.
  - split; [done|]. intros model_id.
    unfold get_model_region. cbn [pipelines get_model_region_in app].
    change (m_id east_sentinel) with "error".
    change (m_id west_sentinel) with "error".
    change (m_region east_sentinel) with "us-east-1".
    destruct (String.eqb "error" model_id); reflexivity.
Qed.

Lemma both_listings_down_routes_east_witness :
  ∃ self, value_of (init ex_both_down) = Ok self ∧
    pipelines self = [east_sentinel; west_sentinel] ∧
    ∀ model_id,
      get_runtime_client (get_model_region self model_id)
        = east_bedrock_runtime.
Proof.
  apply (both_listings_down_routes_east ex_both_down ex_throttled ex_throttled);
    reflexivity.
Defined.

(** * Further properties of dispatch *)

(** X7.  Once [pop_system_message] and [json.dumps] have returned, a call
    with a falsy [stream] option never raises: the host gets a value, which
    is either the text taken from the provider's response or the string
    "Error: " followed by the text of the exception that normalization
    raised or, normalization having returned, that the blocking request
    raised; at most one request is sent, and none to the streaming
    operation. *)
Theorem blocking_dispatch_returns (w : World) (self : Pipeline)
    (user_message model_id : string) (messages messages' : list pyval)
    (system_message : pyval) (dumped : string) (body : dict) :
  pop_system_message w messages = Ok (system_message, messages') →
  json_dumps w messages' = Ok dumped →
  truthy (dict_get body "stream" (PBool false)) = false →
  ∃ v tr,
    dispatch w self user_message model_id messages body = (Completion v, tr) ∧
    ((∃ pm, value_of (normalize w messages') = Ok pm ∧
            value_of (get_completion w model_id
                        (build_payload model_id pm system_message body)
                        (get_model_region self model_id)) = Ok v) ∨
     (∃ e, value_of (normalize w messages') = Raise e ∧
           v = PStr ("Error: " +:+ str_exn e)) ∨
     (∃ pm e, value_of (normalize w messages') = Ok pm ∧
              value_of (get_completion w model_id
                          (build_payload model_id pm system_message body)
                          (get_model_region self model_id)) = Raise e ∧
              v = PStr ("Error: " +:+ str_exn e))) ∧
    (length (sent_blocking tr) ≤ 1)%nat ∧ sent_streaming tr = [].
Proof.
  intros Hpop Hjson Hstream. unfold dispatch. rewrite run_pipe.
  rewrite Hpop, Hjson. cbn zeta.
  destruct (quiet_normalize w messages') as [Qb Qs].
  destruct (value_of (normalize w messages')) as [pm|e] eqn:Hpm.
  - rewrite Hstream. eexists _, _. split; [done|]. split; [|split].
    + destruct (value_of (get_completion w _ _ _)) as [t|e] eqn:Ht.
      * left. by exists pm.
      * right. right. by exists pm, e.
    + unfold sent_blocking in *. cbn [omap list_omap app].
      rewrite omap_app, Qb. cbn. lia.
    + unfold sent_streaming in *. cbn [omap list_omap app].
      by rewrite omap_app, Qs.
  - eexists _, _. split; [done|]. split; [right; left; by exists e|].
    unfold sent_blocking, sent_streaming in *. cbn [omap list_omap app].
    rewrite Qb, Qs. split; [cbn; lia|done].
Qed.

Lemma blocking_dispatch_returns_witness :
  ∃ v tr,
    dispatch ex_transport_down ex_pipeline "hello" "anthropic.claude-3"
             ex_chat ∅ = (Completion v, tr) ∧
    ((∃ pm, value_of (normalize ex_transport_down ex_chat) = Ok pm ∧
            value_of (get_completion ex_transport_down "anthropic.claude-3"
                        (build_payload "anthropic.claude-3" pm PNone ∅)
                        (get_model_region ex_pipeline "anthropic.claude-3"))
              = Ok v) ∨
     (∃ e, value_of (normalize ex_transport_down ex_chat) = Raise e ∧
           v = PStr ("Error: " +:+ str_exn e)) ∨
     (∃ pm e, value_of (normalize ex_transport_down ex_chat) = Ok pm ∧
              value_of (get_completion ex_transport_down "anthropic.claude-3"
                          (build_payload "anthropic.claude-3" pm PNone ∅)
                          (get_model_region ex_pipeline "anthropic.claude-3"))
                = Raise e ∧
              v = PStr ("Error: " +:+ str_exn e))) ∧
    (length (sent_blocking tr) ≤ 1)%nat ∧ sent_streaming tr = [].
Proof.
  apply (blocking_dispatch_returns ex_transport_down ex_pipeline "hello"
           "anthropic.claude-3" ex_chat ex_chat PNone "[...]" ∅);
    by vm_compute.
Defined.

(** X8.  What runs before the [try] of [pipe] is not protected: when
    [pop_system_message] or [json.dumps] raises, [pipe] raises that exception
    to the host, having only printed its first line. *)
Theorem failures_before_try_escape (w : World) (self : Pipeline)
    (user_message model_id : string) (messages : list pyval) (body : dict) :
  (∀ e, pop_system_message w messages = Raise e →
        run (pipe w self user_message model_id messages body)
          = (Raise e, [EvPrint ("pipe:" +:+ module_name w)])) ∧
  (∀ system_message messages' e,
     pop_system_message w messages = Ok (system_message, messages') →
     json_dumps w messages' = Raise e →
     run (pipe w self user_message model_id messages body)
       = (Raise e, [EvPrint ("pipe:" +:+ module_name w)])).
Proof.
  split.
  - intros e Hpop. by rewrite run_pipe, Hpop.
  - intros sys messages' e Hpop Hjson. by rewrite run_pipe, Hpop, Hjson.
Qed.

Lemma failures_before_try_escape_witness :
  run (pipe ex_pop_fails ex_pipeline "hello" "anthropic.claude-3" ex_chat ∅)
    = (Raise (KeyError "'role'"), [EvPrint "pipe:bedrock_models"]).
Proof.
  destruct (failures_before_try_escape ex_pop_fails ex_pipeline "hello"
              "anthropic.claude-3" ex_chat ∅) as [Hpop _].
  by apply (Hpop (KeyError "'role'")).
Defined.

(** X9.  When normalization raises, the call returns the string "Error: "
    followed by the text of the exception whatever the [stream] option is
    (no generator is handed out), and no request is sent to the transport. *)
Theorem normalization_failure_is_returned (w : World) (self : Pipeline)
    (user_message model_id : string) (messages messages' : list pyval)
    (system_message : pyval) (dumped : string) (body : dict) (e : exn) :
  pop_system_message w messages = Ok (system_message, messages') →
  json_dumps w messages' = Ok dumped →
  value_of (normalize w messages') = Raise e →
  ∃ tr,
    run (pipe w self user_message model_id messages body)
      = (Ok (Returned (PStr ("Error: " +:+ str_exn e))), tr) ∧
    dispatch w self user_message model_id messages body
      = (Completion (PStr ("Error: " +:+ str_exn e)), tr) ∧
    sent_blocking tr = [] ∧ sent_streaming tr = [].
Proof.
  intros Hpop Hjson Hnorm. unfold dispatch. rewrite run_pipe.
  rewrite Hpop, Hjson, Hnorm. cbn zeta.
  destruct (quiet_normalize w messages') as [Qb Qs].
  eexists. split; [done|]. split; [done|].
  unfold sent_blocking, sent_streaming in *. cbn [omap list_omap app].
  by rewrite Qb, Qs.
Qed.

Lemma normalization_failure_is_returned_witness :
  ∃ tr,
    run (pipe ex_healthy ex_pipeline "hello" "anthropic.claude-3"
              ex_twenty_broken {[ "stream" := PBool true ]})
      = (Ok (Returned (PStr
           "Error: cannot access local variable 'base64_string' where it is not associated with a value")),
         tr) ∧
    dispatch ex_healthy ex_pipeline "hello" "anthropic.claude-3"
             ex_twenty_broken {[ "stream" := PBool true ]}
      = (Completion (PStr
           "Error: cannot access local variable 'base64_string' where it is not associated with a value"),
         tr) ∧
    sent_blocking tr = [] ∧ sent_streaming tr = [].
Proof.
  apply (normalization_failure_is_returned ex_healthy ex_pipeline "hello"
           "anthropic.claude-3" ex_twenty_broken ex_twenty_broken PNone "[...]"
           {[ "stream" := PBool true ]}
           (UnboundLocalError
              "cannot access local variable 'base64_string' where it is not associated with a value"));
    by vm_compute.
Defined.



(** ** [get_completion] *)

(** X11.  [get_completion] makes one request and returns the text of the
    first content block of the response; the blocks after the first are
    not looked at. *)
Theorem get_completion_first_block (w : World) (model_id region : string)
    (payload response output message block : dict) (later : list pyval)
    (text : pyval) :
  converse w (get_runtime_client region) payload = Ok response →
  response !! "output" = Some (PDict output) →
  output !! "message" = Some (PDict message) →
  message !! "content" = Some (PList (PDict block :: later)) →
  block !! "text" = Some text →
  run (get_completion w model_id payload region) =
    (Ok text, [EvConverse (get_runtime_client region) payload]).
Proof.
  intros Hconv Hout Hmsg Hcontent Htext.
  unfold run, get_completion, call, emit, lift, mbind, M_bind. cbn.
  rewrite Hconv. cbn. unfold dict_getitem. rewrite Hout. cbn.
  rewrite Hmsg. cbn. rewrite Hcontent. cbn. by rewrite Htext.
Qed.

Lemma get_completion_first_block_witness :
  run (get_completion (ex_answers ex_two_blocks) "anthropic.claude-3"
         (build_payload "anthropic.claude-3" [] PNone ∅) "us-west-2") =
    (Ok (PStr "first"),
     [EvConverse west_bedrock_runtime
        (build_payload "anthropic.claude-3" [] PNone ∅)]).
Proof.
  eapply (get_completion_first_block (ex_answers ex_two_blocks));
    by vm_compute.
Defined.

(** X12.  A response whose message has no content block does not give an
    empty completion: [get_completion] raises [IndexError], and the call
    returns the string "Error: list index out of range". *)
Theorem empty_response_is_an_error_string (w : World) (self : Pipeline)
    (user_message model_id : string) (messages messages' pm : list pyval)
    (system_message : pyval) (dumped : string) (body response output
    message : dict) :
  pop_system_message w messages = Ok (system_message, messages') →
  json_dumps w messages' = Ok dumped →
  value_of (normalize w messages') = Ok pm →
  truthy (dict_get body "stream" (PBool false)) = false →
  converse w (get_runtime_client (get_model_region self model_id))
           (build_payload model_id pm system_message body) = Ok response →
  response !! "output" = Some (PDict output) →
  output !! "message" = Some (PDict message) →
  message !! "content" = Some (PList []) →
  (dispatch w self user_message model_id messages body).1
    = Completion (PStr "Error: list index out of range").
Proof.
  intros Hpop Hjson Hnorm Hstream Hconv Hout Hmsg Hcontent.
  unfold dispatch. rewrite run_pipe. rewrite Hpop, Hjson, Hnorm. cbn zeta.
  rewrite Hstream.
  assert (value_of (get_completion w model_id
                      (build_payload model_id pm system_message body)
                      (get_model_region self model_id))
            = Raise (IndexError "list index out of range")) as ->; [|done].
  unfold value_of, run, get_completion, call, emit, lift, mbind, M_bind. cbn.
  rewrite Hconv. cbn. unfold dict_getitem. rewrite Hout. cbn.
  rewrite Hmsg. cbn. by rewrite Hcontent.
Qed.

Lemma empty_response_is_an_error_string_witness :
  (dispatch (ex_answers ex_empty_completion) ex_pipeline "hello"
            "anthropic.claude-3" ex_chat ∅).1
    = Completion (PStr "Error: list index out of range").
Proof.
  eapply (empty_response_is_an_error_string (ex_answers ex_empty_completion)
            ex_pipeline "hello" "anthropic.claude-3" ex_chat);
    by vm_compute.
Defined.

(** ** [stream_response] *)

Lemma stream_loop_step (chunk : dict) (rest : list dict) (broken : option exn) :
  stream_loop (chunk :: rest) broken =
    match chunk_text chunk with
    | None => stream_loop rest broken
    | Some (Ok text) =>
        let '(ys, r) := stream_loop rest broken in (text :: ys, r)
    | Some (Raise e) => ([], Raise e)
    end.
Proof.
  cbn [stream_loop]. unfold chunk_text, dict_getitem.
  destruct (chunk !! "contentBlockDelta") as [cbd|] eqn:Hc.
  - rewrite bool_decide_eq_true_2 by eauto. cbn.
    by destruct (py_getitem cbd "delta" ≫= λ delta, py_getitem delta "text").
  - rewrite bool_decide_eq_false_2; [done|]. by intros [? ?].
Qed.

Lemma stream_loop_texts (cs : list dict) (broken : option exn) :
  forallb chunk_ok cs = true →
  stream_loop cs broken =
    (delta_texts cs,
     match broken with None => Ok tt | Some e => Raise e end).
Proof.
  induction cs as [|chunk cs IH]; intros Hok.
  - cbn. by destruct broken.
  - cbn [forallb] in Hok. apply andb_prop in Hok as [Hchunk Hok].
    rewrite stream_loop_step, (IH Hok). unfold delta_texts, chunk_ok in *.
    cbn [omap list_omap].
    by destruct (chunk_text chunk) as [[text|e]|].
Qed.

Section Draining.
Context (w : World).

(** Draining the generator that [pipe] hands out. *)
Lemma drain_run (model_id region : string) (pm : list pyval)
    (sys : pyval) (body : dict) (tr : list Event) :
  let client := get_runtime_client region in
  let reduced :=
    delete "additionalModelRequestFields"
      (delete "system" (build_payload model_id pm sys body)) in
  drain w (stream_response model_id
             (build_payload model_id pm sys body) region) tr =
    (match converse_stream w client reduced with
     | Raise e => ([], Raise e)
     | Ok response =>
         match field "stream" (stream response) with
         | Raise e => ([], Raise e)
         | Ok es => stream_loop (chunks es) (broken es)
         end
     end, tr ++ [EvConverseStream client reduced]).
Proof.
  cbn zeta. unfold drain, stream_response, call, emit, lift, mbind, M_bind.
  cbn [gen_payload gen_region gen_model_id].
  rewrite (bool_decide_eq_true_2 (is_Some (build_payload _ _ _ _ !! "system")))
    by (by eexists).
  rewrite (bool_decide_eq_true_2
             (is_Some (delete "system" (build_payload _ _ _ _)
                         !! "additionalModelRequestFields")))
    by (by eexists).
  destruct (converse_stream w _ _) as [resp|]; cbn; [|done].
  by destruct (field "stream" (stream resp)).
Qed.

End Draining.

(** X13.  End to end on the streaming path: when preparation succeeds and
    the transport delivers a stream that ends normally and whose delta
    chunks all carry their text, the host, draining the generator, receives
    exactly the texts of the ["contentBlockDelta"] chunks, in arrival order;
    chunks of any other kind are skipped. *)
Theorem streaming_yields_delta_texts (w : World) (self : Pipeline)
    (user_message model_id : string) (messages messages' pm : list pyval)
    (system_message : pyval) (dumped : string) (body : dict)
    (cs : list dict) :
  pop_system_message w messages = Ok (system_message, messages') →
  json_dumps w messages' = Ok dumped →
  value_of (normalize w messages') = Ok pm →
  truthy (dict_get body "stream" (PBool false)) = true →
  converse_stream w (get_runtime_client (get_model_region self model_id))
    (delete "additionalModelRequestFields"
       (delete "system" (build_payload model_id pm system_message body)))
    = Ok {| stream := Some {| chunks := cs; broken := None |} |} →
  forallb chunk_ok cs = true →
  (dispatch w self user_message model_id messages body).1
    = Deltas (delta_texts cs).
Proof.
  intros Hpop Hjson Hnorm Hstream Hconv Hok.
  unfold dispatch. rewrite run_pipe. rewrite Hpop, Hjson, Hnorm. cbn zeta.
  rewrite Hstream, drain_run. cbn zeta. rewrite Hconv. cbn [field stream].
  cbn [chunks broken]. by rewrite stream_loop_texts.
Qed.

Lemma streaming_yields_delta_texts_witness :
  (dispatch ex_healthy ex_pipeline "hello" "anthropic.claude-3" ex_chat
            {[ "stream" := PBool true ]}).1
    = Deltas [PStr "Hel"; PStr "lo"].
Proof.
  eapply (streaming_yields_delta_texts ex_healthy ex_pipeline "hello"
            "anthropic.claude-3" ex_chat ex_chat _ PNone "[...]"
            {[ "stream" := PBool true ]} ex_stream_chunks);
    by vm_compute.
Defined.

(** X14.  How the stream fails.  If the transport breaks after delivering
    its chunks, every delta text has been yielded before the exception; if a
    delta chunk lacks its ["delta"] or ["text"], the texts before it have
    been yielded, the lookup's exception ends the iteration, and the chunks
    after it are never read. *)
Theorem stream_failures_keep_earlier_texts :
  (∀ cs e,
     forallb chunk_ok cs = true →
     stream_loop cs (Some e) = (delta_texts cs, Raise e)) ∧
  (∀ good bad rest broken e,
     forallb chunk_ok good = true →
     chunk_text bad = Some (Raise e) →
     stream_loop (good ++ bad :: rest) broken = (delta_texts good, Raise e)).
Proof.
  split.
  - intros cs e Hok. by rewrite stream_loop_texts.
  - intros good bad rest broken e Hok Hbad.
    induction good as [|chunk good IH].
    + cbn [app]. rewrite stream_loop_step, Hbad. done.
    + cbn [forallb] in Hok. apply andb_prop in Hok as [Hchunk Hok].
      cbn [app]. rewrite stream_loop_step, (IH Hok).
      unfold delta_texts, chunk_ok in *. cbn [omap list_omap].
      by destruct (chunk_text chunk) as [[text|e']|].
Qed.

Lemma stream_failures_keep_earlier_texts_witness :
  stream_loop [delta_chunk "Hel"; delta_chunk "lo"] (Some ex_connection_reset)
    = ([PStr "Hel"; PStr "lo"], Raise ex_connection_reset) ∧
  stream_loop ([delta_chunk "Hel"] ++ ex_bad_chunk :: [delta_chunk "lo"]) None
    = ([PStr "Hel"], Raise (KeyError "'text'")).
Proof.
  destruct stream_failures_keep_earlier_texts as [Hbroken Hbad]. split.
  - by apply (Hbroken [delta_chunk "Hel"; delta_chunk "lo"]).
  - by apply (Hbad [delta_chunk "Hel"] ex_bad_chunk [delta_chunk "lo"] None).
Defined.

(** * Further properties of [process_image] *)

Lemma rev_app_rev_app (s1 s2 s3 : string) :
  String.rev_app (String.rev_app s1 s2) s3 = String.rev_app s2 (s1 +:+ s3).
Proof.
  revert s2 s3. induction s1 as [|a s1 IH]; intros s2 s3; [done|].
  simpl. by rewrite IH.
Qed.

Lemma rev_app_append (s1 s2 s3 : string) :
  String.rev_app (s1 +:+ s2) s3 = String.rev_app s2 (String.rev_app s1 s3).
Proof.
  revert s3. induction s1 as [|a s1 IH]; intros s3; [done|].
  simpl. by rewrite IH.
Qed.

Lemma str_app_assoc (s1 s2 s3 : string) :
  (s1 +:+ s2) +:+ s3 = s1 +:+ (s2 +:+ s3).
Proof.
  induction s1 as [|a s1 IH]; [done|].
  change (String a ((s1 +:+ s2) +:+ s3) = String a (s1 +:+ s2 +:+ s3)).
  by rewrite IH.
Qed.

Lemma rev_app_nil_r (s1 s2 : string) :
  String.rev_app s1 s2 = String.rev s1 +:+ s2.
Proof.
  unfold String.rev. revert s2. induction s1 as [|a s1 IH]; intros s2; [done|].
  cbn [String.rev_app]. rewrite IH, (IH (String a "")).
  by rewrite str_app_assoc.
Qed.

Lemma str_contains_app (c : Ascii.ascii) (s1 s2 : string) :
  str_contains c (s1 +:+ s2) = str_contains c s1 || str_contains c s2.
Proof.
  induction s1 as [|a s1 IH]; [done|].
  simpl. by rewrite IH, orb_assoc.
Qed.

Lemma str_contains_rev (c : Ascii.ascii) (s : string) :
  str_contains c (String.rev s) = str_contains c s.
Proof.
  induction s as [|a s IH]; [done|].
  unfold String.rev. cbn [String.rev_app]. rewrite rev_app_nil_r.
  rewrite str_contains_app, IH. cbn [str_contains].
  by rewrite orb_false_r, orb_comm.
Qed.

(** [split] on a text whose first piece has no separator. *)
Lemma split_go_piece (c : Ascii.ascii) (a rest cur : string) :
  str_contains c a = false →
  split_go c (a +:+ String c rest) cur
    = String.rev_app cur a :: split_go c rest "".
Proof.
  revert cur. induction a as [|d a IH]; intros cur Hno.
  - simpl. by rewrite Ascii.eqb_refl.
  - cbn [str_contains] in Hno. apply orb_false_elim in Hno as [Hd Hno].
    simpl. rewrite Hd. by rewrite (IH _ Hno).
Qed.

Lemma split_go_last (c : Ascii.ascii) (a cur : string) :
  str_contains c a = false →
  split_go c a cur = [String.rev_app cur a].
Proof.
  revert cur. induction a as [|d a IH]; intros cur Hno.
  - done.
  - cbn [str_contains] in Hno. apply orb_false_elim in Hno as [Hd Hno].
    cbn [split_go]. rewrite Hd. by rewrite (IH _ Hno).
Qed.

Lemma split_second_piece (c : Ascii.ascii) (meta piece tail : string) :
  str_contains c meta = false → str_contains c piece = false →
  (tail = "" ∨ ∃ t, tail = String c t) →
  list_index1 (split c (meta +:+ String c (piece +:+ tail))) = Ok piece.
Proof.
  intros Hmeta Hpiece Htail. unfold split.
  rewrite split_go_piece by done.
  destruct Htail as [->|[t ->]].
  - replace (piece +:+ "") with piece
      by (clear; induction piece as [|a p IH]; [done|];
          change (String a p = String a (p +:+ "")); by rewrite <- IH).
    by rewrite split_go_last.
  - by rewrite split_go_piece.
Qed.

Lemma process_image_inline (w : World) (d : dict) (meta piece tail : string) :
  let url := meta +:+ String "," (piece +:+ tail) in
  d !! "url" = Some (PStr url) →
  startswith url "data:image" = true →
  str_contains "," meta = false → str_contains "," piece = false →
  (tail = "" ∨ ∃ t, tail = String "," t) →
  run (process_image w (PDict d)) =
    (match b64decode w piece with
     | Ok data =>
         Ok (image_block (if endswith url ".png" then "png" else "jpeg") data)
     | Raise e => Raise e
     end, [EvB64Decode piece]).
Proof.
  intros url. subst url.
  remember (meta +:+ String "," (piece +:+ tail)) as url eqn:Hu.
  intros Hurl Hdata Hmeta Hpiece Htail.
  assert (str_contains "," url = true) as Hcomma.
  { rewrite Hu, str_contains_app. cbn [str_contains].
    by rewrite Ascii.eqb_refl, orb_true_r. }
  pose proof (split_second_piece "," meta piece tail Hmeta Hpiece Htail)
    as Hsplit. rewrite <- Hu in Hsplit.
  unfold run, process_image, call, emit, lift, raise, mbind, M_bind,
    mret, M_ret. cbn.
  rewrite Hurl. cbn. rewrite Hdata. cbn. rewrite Hcomma. cbn.
  rewrite Hsplit. cbn.
  destruct (b64decode w piece) as [data|e]; cbn; [|done].
  by destruct (endswith url ".png").
Qed.

Lemma py_eq_str_false (v : pyval) (lit : string) :
  v ≠ PStr lit → py_eq_str v lit = false.
Proof.
  destruct v as [| | | |s| | |]; cbn; try done. intros Hne.
  apply String.eqb_neq. congruence.
Qed.

Section MixedContent.
Context (w : World).

Lemma inline_image_block_value (image block : pyval) :
  inline_image_block w image block →
  value_of (process_image w image) = Ok block.
Proof.
  intros (d & meta & piece & tail & data & -> & Hurl & Hdata & Hmeta & Hpiece
          & Htail & Hdecode & ->).
  unfold value_of.
  rewrite (process_image_inline w d meta piece tail Hurl Hdata Hmeta Hpiece
             Htail).
  by rewrite Hdecode.
Qed.

Lemma item_becomes_spec (item : pyval) (bs : list pyval) :
  item_becomes w item bs →
  wf_item item = true ∧ Forall (resolves w) (item_images item) ∧
  spec_item_blocks w item = bs.
Proof.
  intros [d text Hty Htext|d image block Hty Himage Hinline|d ty Hty Ht Hi];
    cbn [wf_item item_images spec_item_blocks]; rewrite Hty.
  - change (py_eq_str (PStr "text") "text") with true.
    change (py_eq_str (PStr "text") "image_url") with false.
    rewrite Htext. cbn iota. rewrite bool_decide_eq_true_2 by eauto.
    destruct (d !! "image_url"); by repeat split.
  - change (py_eq_str (PStr "image_url") "text") with false.
    change (py_eq_str (PStr "image_url") "image_url") with true.
    rewrite Himage. cbn iota. rewrite bool_decide_eq_true_2 by eauto.
    pose proof (inline_image_block_value image block Hinline) as Hv.
    rewrite Hv. split; [done|]. split; [|done].
    constructor; [|done]. unfold resolves. by rewrite Hv.
  - rewrite (py_eq_str_false ty "text") by done.
    rewrite (py_eq_str_false ty "image_url") by done.
    destruct (d !! "image_url"); by repeat split.
Qed.

Lemma items_become_spec (items : list pyval) (blocks : list (list pyval)) :
  Forall2 (item_becomes w) items blocks →
  forallb wf_item items = true ∧
  Forall (resolves w) (flat_map item_images items) ∧
  flat_map (spec_item_blocks w) items = concat blocks.
Proof.
  induction 1 as [|item bs items blocks Hitem _ (Hwf & Hres & Hspec)];
    [done|].
  destruct (item_becomes_spec item bs Hitem) as (Hwf1 & Hres1 & Hspec1).
  cbn [forallb flat_map concat]. rewrite Hwf1, Hwf, Hspec1, Hspec.
  split; [done|]. split; [|done]. by apply Forall_app.
Qed.

Lemma message_becomes_spec (message out : pyval) :
  message_becomes w message out →
  wf_message message = true ∧ Forall (resolves w) (message_images message) ∧
  spec_message w message = out.
Proof.
  intros [d r c Hr Hc|d r items blocks Hr Hc Hitems];
    cbn [wf_message message_images spec_message spec_content];
    rewrite Hr, Hc; cbn [default id]; rewrite bool_decide_eq_true_2 by eauto.
  - by repeat split.
  - destruct (items_become_spec items blocks Hitems) as (Hwf & Hres & Hspec).
    cbn [spec_content]. rewrite Hwf, Hspec. by repeat split.
Qed.

Lemma messages_become_spec (messages outs : list pyval) :
  Forall2 (message_becomes w) messages outs →
  forallb wf_message messages = true ∧
  Forall (resolves w) (image_items messages) ∧
  spec_message w <$> messages = outs.
Proof.
  induction 1 as [|m out messages outs Hm _ (Hwf & Hres & Hspec)]; [done|].
  destruct (message_becomes_spec m out Hm) as (Hwf1 & Hres1 & Hspec1).
  unfold image_items in *. cbn [forallb flat_map]. rewrite fmap_cons.
  rewrite Hwf1, Hwf, Hspec1, Hspec. split; [done|]. split; [|done].
  by apply Forall_app.
Qed.

End MixedContent.

(** C9, as the code has it.  (a) A list of messages that each have a role
    and a flat string as content normalizes, whatever the world, to one
    message per input message, in order, each with the role and exactly one
    text block holding the string.  (b) A list of messages that each have a
    role and either a flat string or a mixed list as content, with at most
    20 image items in all, every image item holding an inline reference
    whose payload decodes, normalizes to one message per input message, in
    order, each with the role and, item by item in order, a text block with
    the text for a text item, for an image item the image block with the
    decoded payload, tagged png when the reference ends with ".png" and
    jpeg otherwise, and nothing for an item of any other type. *)
Theorem normalize_shapes (w : World) :
  (∀ messages,
     Forall flat_text_message messages →
     ∃ outs, value_of (normalize w messages) = Ok outs ∧
             Forall2 flat_normalized messages outs) ∧
  (∀ messages outs,
     Forall2 (message_becomes w) messages outs →
     (length (image_items messages) ≤ 20)%nat →
     value_of (normalize w messages) = Ok outs).
Proof.
  split.
  - intros messages Hflat.
    destruct (flat_text_messages_plain messages Hflat) as [Hwf Himg].
    exists (spec_message w <$> messages). split.
    + unfold value_of, normalize.
      rewrite messages_loop_within; [done|done|by rewrite Himg|].
      rewrite Himg. cbn. lia.
    + by apply flat_text_messages_normalized.
  - intros messages outs Hbecomes Hlen.
    destruct (messages_become_spec w messages outs Hbecomes)
      as (Hwf & Hres & <-).
    unfold value_of, normalize.
    by rewrite messages_loop_within by (done || lia).
Qed.

Lemma normalize_shapes_witness :
  (∃ outs, value_of (normalize ex_healthy ex_chat) = Ok outs ∧
           Forall2 flat_normalized ex_chat outs) ∧
  value_of (normalize ex_healthy ex_mixed) = Ok ex_mixed_normalized.
Proof.
  destruct (normalize_shapes ex_healthy) as (HA & HB).
  split.
  - apply (HA ex_chat).
    repeat constructor; eexists _, _, _; (split; [reflexivity|]);
      split; by vm_compute.
  - apply (HB ex_mixed ex_mixed_normalized); [|vm_compute; lia].
    constructor; [|constructor].
    apply (mixed_message_becomes ex_healthy _ (PStr "user")
             [ text_item "what is this?"; audio_item;
               image_item ex_inline_png ]
             [ [PDict {[ "text" := PStr "what is this?" ]}]; [];
               [image_block "jpeg" png_bytes] ]); [done|done|].
    constructor; [|constructor; [|constructor; [|constructor]]].
    + by apply (text_item_becomes ex_healthy _ (PStr "what is this?")).
    + by apply (other_item_ignored ex_healthy _ (PStr "input_audio")).
    + apply (image_item_becomes ex_healthy _
               (PDict {[ "url" := PStr ex_inline_png ]})); [done|done|].
      exists {[ "url" := PStr ex_inline_png ]}, "data:image/png;base64",
        "iVBORw==", "", png_bytes.
      repeat split; try done. by left.
Defined.

(** C9, as the spec states it, fails: a well-formed mixed list with a text
    item and one image item does not normalize when the payload of the
    inline reference is cut short; decoding raises, and the image item does
    not become an image block. *)
Lemma undecodable_image_fails_normalization :
  forallb wf_message ex_mixed_truncated = true ∧
  length (image_items ex_mixed_truncated) = 1%nat ∧
  value_of (normalize ex_healthy ex_mixed_truncated)
    = Raise (External "binascii.Error" "Incorrect padding").
Proof. by vm_compute. Qed.

(** X15.  Inline references.  When the reference starts with "data:image"
    and has a comma, what is decoded is the text between the first comma and
    the second (or the end): one [b64decode] call, no network fetch; the
    block holds the decoded bytes, tagged png only if the whole reference
    ends with ".png", and a decoding error is raised as it is.  When the
    reference has no comma, [UnboundLocalError] is raised before any
    collaborator is called. *)
Theorem inline_image_decodes_first_piece (w : World) :
  (∀ (d : dict) (meta piece tail : string),
     let url := meta +:+ String "," (piece +:+ tail) in
     d !! "url" = Some (PStr url) →
     startswith url "data:image" = true →
     str_contains "," meta = false → str_contains "," piece = false →
     (tail = "" ∨ ∃ t, tail = String "," t) →
     run (process_image w (PDict d)) =
       (match b64decode w piece with
        | Ok data =>
            Ok (image_block (if endswith url ".png" then "png" else "jpeg") data)
        | Raise e => Raise e
        end, [EvB64Decode piece])) ∧
  (∀ (d : dict) (url : string),
     d !! "url" = Some (PStr url) →
     startswith url "data:image" = true →
     str_contains "," url = false →
     ∃ msg, run (process_image w (PDict d)) = (Raise (UnboundLocalError msg), [])).
Proof.
  split; [apply process_image_inline|].
  intros d url Hurl Hdata Hcomma. eexists.
  unfold run, process_image, call, emit, lift, raise, mbind, M_bind,
    mret, M_ret. cbn.
  rewrite Hurl. cbn. rewrite Hdata. cbn. by rewrite Hcomma.
Qed.

Lemma inline_image_decodes_first_piece_witness :
  run (process_image ex_healthy
         (PDict {[ "url" := PStr "data:image/png;base64,iVBORw==,aGVsbG8=" ]})) =
    (Ok (image_block "jpeg" png_bytes), [EvB64Decode "iVBORw=="]) ∧
  ∃ msg, run (process_image ex_healthy
                (PDict {[ "url" := PStr ex_inline_no_comma ]}))
         = (Raise (UnboundLocalError msg), []).
Proof.
  destruct (inline_image_decodes_first_piece ex_healthy) as [Hcomma Hnone].
  split.
  - apply (Hcomma {[ "url" := PStr "data:image/png;base64,iVBORw==,aGVsbG8=" ]}
             "data:image/png;base64" "iVBORw==" ",aGVsbG8="); try by vm_compute.
    right. by eexists.
  - apply (Hnone {[ "url" := PStr ex_inline_no_comma ]} ex_inline_no_comma);
      by vm_compute.
Defined.

(** X16.  Remote references.  For a reference that does not start with
    "data:image", [process_image] makes exactly one fetch, with no retry,
    and never returns an image block: it raises what the fetch raised, or,
    when the fetch delivered a body, [AttributeError]. *)
Theorem remote_reference_never_resolves (w : World) (d : dict) (url : string) :
  d !! "url" = Some (PStr url) →
  startswith url "data:image" = false →
  trace_of (process_image w (PDict d)) = [EvRequestsGet url] ∧
  is_ok (value_of (process_image w (PDict d))) = false ∧
  ¬ resolves w (PDict d).
Proof.
  intros Hurl Hremote. unfold resolves, value_of, trace_of.
  rewrite (process_image_remote w d url Hurl Hremote). cbn [fst snd].
  by destruct (requests_get w url).
Qed.

Lemma remote_reference_never_resolves_witness :
  trace_of (process_image ex_healthy (PDict {[ "url" := PStr ex_remote_png ]}))
    = [EvRequestsGet ex_remote_png] ∧
  is_ok (value_of (process_image ex_healthy
                     (PDict {[ "url" := PStr ex_remote_png ]}))) = false ∧
  ¬ resolves ex_healthy (PDict {[ "url" := PStr ex_remote_png ]}).
Proof.
  apply (remote_reference_never_resolves ex_healthy
           {[ "url" := PStr ex_remote_png ]} ex_remote_png); by vm_compute.
Defined.

Lemma str_app_cons (a : Ascii.ascii) (s t : string) :
  String a s +:+ t = String a (s +:+ t).
Proof. reflexivity. Qed.

Lemma startswith_gnp_dot (a m : string) :
  str_contains "." a = false →
  startswith (a +:+ String "," m) "gnp." = false.
Proof.
  intros Hdot.
  destruct a as [|x1 [|x2 [|x3 [|x4 a]]]];
    rewrite ?str_app_cons; cbn [startswith].
  - reflexivity.
  - destruct (Ascii.eqb "g" x1); reflexivity.
  - destruct (Ascii.eqb "g" x1), (Ascii.eqb "n" x2); reflexivity.
  - destruct (Ascii.eqb "g" x1), (Ascii.eqb "n" x2), (Ascii.eqb "p" x3);
      reflexivity.
  - cbn [str_contains] in Hdot.
    do 3 (apply orb_false_elim in Hdot as [_ Hdot]).
    apply orb_false_elim in Hdot as [Hx4 _].
    rewrite Hx4. by rewrite !andb_false_r.
Qed.

Lemma endswith_png_needs_dot (meta after : string) :
  str_contains "." after = false →
  endswith (meta +:+ String "," after) ".png" = false.
Proof.
  intros Hdot. unfold endswith.
  change (String.rev ".png") with "gnp.".
  unfold String.rev. rewrite rev_app_append. cbn [String.rev_app].
  rewrite rev_app_nil_r. apply startswith_gnp_dot.
  by rewrite str_contains_rev.
Qed.

(** X17.  The format tag of an inline image does not come from its media
    type: when nothing after the first comma contains a dot (as in any
    base64 payload), the block is tagged jpeg, whatever the metadata before
    the comma says, "data:image/png;base64" included. *)
Theorem inline_image_is_tagged_jpeg (w : World) (d : dict)
    (meta piece tail : string) (data : list Byte.byte) :
  let url := meta +:+ String "," (piece +:+ tail) in
  d !! "url" = Some (PStr url) →
  startswith url "data:image" = true →
  str_contains "," meta = false → str_contains "," piece = false →
  (tail = "" ∨ ∃ t, tail = String "," t) →
  str_contains "." (piece +:+ tail) = false →
  b64decode w piece = Ok data →
  value_of (process_image w (PDict d)) = Ok (image_block "jpeg" data).
Proof.
  intros url Hurl Hdata Hmeta Hpiece Htail Hdot Hdec. unfold value_of.
  rewrite (process_image_inline w d meta piece tail Hurl Hdata Hmeta Hpiece Htail).
  cbn [fst]. rewrite Hdec. fold url. unfold url.
  by rewrite endswith_png_needs_dot.
Qed.

Lemma inline_image_is_tagged_jpeg_witness :
  value_of (process_image ex_healthy (PDict {[ "url" := PStr ex_inline_png ]}))
    = Ok (image_block "jpeg" png_bytes).
Proof.
  apply (inline_image_is_tagged_jpeg ex_healthy
           {[ "url" := PStr ex_inline_png ]}
           "data:image/png;base64" "iVBORw==" ""); try by vm_compute.
  by left.
Defined.

(** * Further properties of normalization *)

Section PlainMessages.
Context (w : World).

Lemma plain_loop_step (m : pyval) (rest pm : list pyval) (n : Z) :
  plain_message m = true →
  run (pipe_messages_loop w (m :: rest) pm n) =
  run (pipe_messages_loop w rest (pm ++ [plain_normalized m]) n).
Proof.
  destruct m as [| | | | | | |d]; try done. cbn [plain_message].
  intros [[r Hr]%bool_decide_eq_true Hc]%andb_prop.
  rewrite messages_round. cbn [plain_normalized py_getitem]. rewrite Hr.
  destruct (d !! "content") as [[]|]; try done;
    change (run (mret ?x ≫= ?f)) with (run (f x)); cbn [fst snd];
    by rewrite run_lift_bind.
Qed.

Lemma plain_loop (messages pm : list pyval) (n : Z) :
  forallb plain_message messages = true →
  run (pipe_messages_loop w messages pm n) =
    (Ok (pm ++ (plain_normalized <$> messages)), []).
Proof.
  revert pm. induction messages as [|m messages IH]; intros pm Hplain.
  - cbn. by rewrite app_nil_r.
  - cbn [forallb] in Hplain. apply andb_prop in Hplain as [Hm Hplain].
    rewrite plain_loop_step by done. rewrite IH by done.
    by rewrite <- app_assoc.
Qed.

End PlainMessages.

(** X18.  Messages without a content list.  A list of messages that each
    have a role and a content that is not a list normalizes in every world,
    without any collaborator call, to one message per input message, in
    order, each with one text block: the content itself when the key is
    there (a string, but also null or a number, verbatim), and the empty
    string when the message has no content key. *)
Theorem plain_messages_normalize (w : World) (messages : list pyval) :
  forallb plain_message messages = true →
  run (normalize w messages) = (Ok (plain_normalized <$> messages), []).
Proof. intros Hplain. unfold normalize. by rewrite plain_loop. Qed.

Lemma plain_messages_normalize_witness :
  run (normalize ex_transport_down
         [ PDict {[ "role" := PStr "user" ]};
           PDict {[ "role" := PStr "assistant"; "content" := PNone ]};
           PDict {[ "role" := PStr "user"; "content" := PInt 42 ]} ]) =
    (Ok [ PDict {[ "role" := PStr "user";
                   "content" := PList [PDict {[ "text" := PStr "" ]}] ]};
          PDict {[ "role" := PStr "assistant";
                   "content" := PList [PDict {[ "text" := PNone ]}] ]};
          PDict {[ "role" := PStr "user";
                   "content" := PList [PDict {[ "text" := PInt 42 ]}] ]} ],
     []).
Proof.
  rewrite (plain_messages_normalize ex_transport_down
             [ PDict {[ "role" := PStr "user" ]};
               PDict {[ "role" := PStr "assistant"; "content" := PNone ]};
               PDict {[ "role" := PStr "user"; "content" := PInt 42 ]} ])
    by (by vm_compute).
  by vm_compute.
Defined.

(** X20.  For every message list whatever, well formed or not, and every
    world, the collaborator calls that normalization makes are exactly those
    of resolving the first [k] images of the list, in order, for some [k] of
    at most 20; when normalization returns, [k] is the number of images of
    the list.  So no image beyond the twentieth is ever fetched or decoded,
    and no image is resolved twice or out of order. *)
Theorem normalize_resolves_a_prefix (w : World) (messages : list pyval) :
  ∃ k, (k ≤ 20)%nat ∧ (k ≤ length (image_items messages))%nat ∧
       trace_of (normalize w messages)
         = image_traces w (take k (image_items messages)) ∧
       (is_ok (value_of (normalize w messages)) = true →
        k = length (image_items messages)).
Proof.
  pose proof (messages_loop_outcome w messages [] 0 ltac:(lia)) as H.
  unfold messages_outcome, value_of, trace_of, normalize in *.
  destruct (run (pipe_messages_loop w messages [] 0)) as [[pm|e] tr];
    cbn [fst snd is_ok].
  - destruct H as (_ & Hle & ->). exists (length (image_items messages)).
    split; [lia|]. split; [done|]. split; [|done]. by rewrite firstn_all.
  - destruct H as (k & Hk & Hlen & ->). exists k.
    split; [lia|]. split; [done|]. split; done.
Qed.

Lemma normalize_resolves_a_prefix_witness :
  ∃ k, (k ≤ 20)%nat ∧ (k ≤ length (image_items ex_twentyone_broken))%nat ∧
       trace_of (normalize ex_healthy ex_twentyone_broken)
         = image_traces ex_healthy (take k (image_items ex_twentyone_broken)) ∧
       (is_ok (value_of (normalize ex_healthy ex_twentyone_broken)) = true →
        k = length (image_items ex_twentyone_broken)).
Proof. apply (normalize_resolves_a_prefix ex_healthy ex_twentyone_broken). Defined.
